(** * The sentiment consumer [consumers/project_consumer_vrtachnik.py]

    A shallow embedding of the consumer that tails the producer's JSON file
    and keeps, per author, a message count and a running sum of sentiment.

    The three functions of the source, [update_chart], [process_message] and
    [main], are translated statement by statement into a small state and
    exception monad over the module's global objects ([author_stats], the
    axes [ax], and the effects on the outside world: the logger, standard
    output, [time.sleep] and the pyplot window).

    The Python library functions the source calls are modelled next to it:
    [json.loads], the builtin [float], [str.strip], [dict.get], the
    [defaultdict] lookup, and [readline] on a text file.

    Conventions of the model.
    - A Python [str] is a Rocq [string] holding its UTF-8 encoding; the only
      characters classified as white space or as digits are the ASCII ones.
    - A Python [float] is a primitive binary64 float; decimal literals are
      rounded to nearest-even, as CPython rounds them.
    - A Python [int] is a [Z]; the interpreter's resource limits (recursion
      depth, the digit limit of [int]) are not modelled.
    - The pyplot calls are assumed not to raise; of what they draw only the
      bars and their annotations are kept. *)

From Stdlib Require Import ZArith String Ascii Bool Lia.
From Stdlib Require Import Floats.PrimFloat Floats.SpecFloat Floats.FloatOps.
From Stdlib Require Floats.FloatAxioms.
From stdpp Require Import base list strings.

Set Warnings "-inexact-float,-register-all".

Local Open Scope Z_scope.

(** ** Python exceptions raised by the modelled library calls *)

Inductive exn : Type :=
  | JSONDecodeError
  | ValueError
  | TypeError
  | OverflowError
  | ZeroDivisionError.

(** ** Python values, as [json.loads] builds them *)

Inductive pyval : Type :=
  | PNone
  | PBool (b : bool)
  | PInt (z : Z)
  | PFloat (f : float)
  | PStr (s : string)
  | PList (items : list pyval)
  | PDict (pairs : list (string * pyval)).

(** [type(v).__name__] *)
Definition py_type (v : pyval) : string :=
  match v with
  | PNone => "NoneType"
  | PBool _ => "bool"
  | PInt _ => "int"
  | PFloat _ => "float"
  | PStr _ => "str"
  | PList _ => "list"
  | PDict _ => "dict"
  end.

(** ** Characters and strings *)

Definition code (c : ascii) : Z := Z.of_N (N_of_ascii c).
Definition chr (n : Z) : ascii := ascii_of_N (Z.to_N n).

Definition dquote : ascii := chr 34.
Definition backslash : ascii := chr 92.

(** Writes a JSON text with apostrophes where the double quotes go. *)
Fixpoint dq (s : string) : string :=
  match s with
  | EmptyString => EmptyString
  | String c s' => String (if Ascii.eqb c "'" then dquote else c) (dq s')
  end.

Definition is_digit (c : ascii) : bool := (48 <=? code c) && (code c <=? 57).
Definition digit_val (c : ascii) : Z := code c - 48.

(** White space of [str.strip] and [str.isspace], ASCII part:
    TAB, LF, VT, FF, CR, FS, GS, RS, US and the space. *)
Definition py_isspace (c : ascii) : bool :=
  let n := code c in
  ((9 <=? n) && (n <=? 13)) || ((28 <=? n) && (n <=? 31)) || (n =? 32).

Fixpoint lstrip (s : string) : string :=
  match s with
  | String c s' => if py_isspace c then lstrip s' else s
  | EmptyString => EmptyString
  end.

Fixpoint rstrip (s : string) : string :=
  match s with
  | EmptyString => EmptyString
  | String c s' =>
      match rstrip s' with
      | EmptyString => if py_isspace c then EmptyString else String c EmptyString
      | r => String c r
      end
  end.

(** [s.strip()] *)
Definition py_strip (s : string) : string := rstrip (lstrip s).

(** Truth value of a [str]: non-empty. *)
Definition str_bool (s : string) : bool :=
  match s with EmptyString => false | String _ _ => true end.

Fixpoint strip_prefix (p s : string) : option string :=
  match p, s with
  | EmptyString, _ => Some s
  | String a p', String b s' => if Ascii.eqb a b then strip_prefix p' s' else None
  | String _ _, EmptyString => None
  end.

Definition lower (c : ascii) : ascii :=
  if (65 <=? code c) && (code c <=? 90) then chr (code c + 32) else c.

Fixpoint lower_str (s : string) : string :=
  match s with
  | EmptyString => EmptyString
  | String c s' => String (lower c) (lower_str s')
  end.

(** ** Floats *)

(** The binary64 float nearest to [(-1)^neg * m * 10^e] (ties to even);
    overflow gives an infinity. *)
Definition decimal_to_float (neg : bool) (m e : Z) : float :=
  SF2Prim
    match m with
    | Zpos p =>
        if 0 <=? e then binary_round prec emax neg (Z.to_pos (m * 10 ^ e)) 0
        else
          let '(q, eq, loc) :=
            SFdiv_core_binary prec emax (Zpos p) 0 (10 ^ (- e)) 0 in
          binary_round_aux prec emax neg q eq loc
    | _ => S754_zero neg
    end.

(** [float(z)] for an [int]: nearest-even, [OverflowError] when the rounded
    value is out of range. *)
Definition float_of_int (z : Z) : exn + float :=
  match binary_normalize prec emax z 0 false with
  | S754_infinity _ => inl OverflowError
  | sf => inr (SF2Prim sf)
  end.

(** [x / n] for a float [x] and an int [n]: the int is converted first. *)
Definition py_truediv (x : float) (n : Z) : exn + float :=
  match float_of_int n with
  | inl e => inl e
  | inr d => if PrimFloat.eqb d 0 then inl ZeroDivisionError else inr (x / d)%float
  end.

(** Reads a run of decimal digits, accumulating their value onto [acc];
    returns the value, how many digits were read, and the rest. *)
Fixpoint read_digits (s : string) (acc : Z) (n : nat) : Z * nat * string :=
  match s with
  | String c s' =>
      if is_digit c then read_digits s' (10 * acc + digit_val c) (S n)
      else (acc, n, s)
  | EmptyString => (acc, n, s)
  end.

(** An exponent part, [e] or [E], an optional sign and at least one digit;
    [None] when [s] does not start with one. *)
Definition read_exponent (s : string) : option (Z * string) :=
  match s with
  | String c s1 =>
      if Ascii.eqb (lower c) "e" then
        let '(neg, s2) :=
          match s1 with
          | String sg s2 =>
              if Ascii.eqb sg "-" then (true, s2)
              else if Ascii.eqb sg "+" then (false, s2)
              else (false, s1)
          | EmptyString => (false, s1)
          end in
        let '(v, n, s3) := read_digits s2 0 0 in
        match n with
        | O => None
        | S _ => Some (if neg then - v else v, s3)
        end
      else None
  | EmptyString => None
  end.

(** Underscores in a numeric string: each one between two digits; they are
    dropped. [prev] tells whether the previous character was a digit. *)
Fixpoint drop_underscores (prev : bool) (s : string) : option string :=
  match s with
  | EmptyString => Some EmptyString
  | String c s' =>
      if Ascii.eqb c "_" then
        match s' with
        | String d _ =>
            if prev && is_digit d then drop_underscores false s' else None
        | EmptyString => None
        end
      else option_map (String c) (drop_underscores (is_digit c) s')
  end.

(** [float(s)] for a [str]: surrounding white space, an optional sign, then
    [inf], [infinity], [nan] in any case, or a decimal number with at least
    one digit and an optional exponent. [None] stands for [ValueError]. *)
Definition float_of_str (s : string) : option float :=
  match drop_underscores false (py_strip s) with
  | None => None
  | Some t =>
      let '(neg, u) :=
        match t with
        | String c u =>
            if Ascii.eqb c "-" then (true, u)
            else if Ascii.eqb c "+" then (false, u)
            else (false, t)
        | EmptyString => (false, t)
        end in
      let w := lower_str u in
      if String.eqb w "inf" || String.eqb w "infinity" then
        Some (if neg then neg_infinity else infinity)
      else if String.eqb w "nan" then Some nan
      else
        let '(ip, ni, r1) := read_digits u 0 0 in
        let '(mant, nf, r2) :=
          match r1 with
          | String c r =>
              if Ascii.eqb c "." then read_digits r ip 0 else (ip, O, r1)
          | EmptyString => (ip, O, r1)
          end in
        match (ni + nf)%nat with
        | O => None
        | S _ =>
            let '(ex, r3) := default (0, r2) (read_exponent r2) in
            match r3 with
            | EmptyString => Some (decimal_to_float neg mant (ex - Z.of_nat nf))
            | String _ _ => None
            end
        end
  end.

(** The builtin [float(v)]. *)
Definition py_float (v : pyval) : exn + float :=
  match v with
  | PFloat f => inr f
  | PInt z => float_of_int z
  | PBool b => inr (if b then 1%float else 0%float)
  | PStr s =>
      match float_of_str s with
      | Some f => inr f
      | None => inl ValueError
      end
  | PNone | PList _ | PDict _ => inl TypeError
  end.

(** ** [json.loads] *)

(** White space between JSON tokens: space, TAB, LF, CR. *)
Definition is_json_ws (c : ascii) : bool :=
  let n := code c in (n =? 32) || (n =? 9) || (n =? 10) || (n =? 13).

Fixpoint skip_ws (s : string) : string :=
  match s with
  | String c s' => if is_json_ws c then skip_ws s' else s
  | EmptyString => EmptyString
  end.

Definition hex_val (c : ascii) : option Z :=
  let n := code c in
  if (48 <=? n) && (n <=? 57) then Some (n - 48)
  else if (97 <=? n) && (n <=? 102) then Some (n - 87)
  else if (65 <=? n) && (n <=? 70) then Some (n - 55)
  else None.

Definition hex4 (a b c d : ascii) : option Z :=
  match hex_val a, hex_val b, hex_val c, hex_val d with
  | Some x, Some y, Some z, Some w => Some (((x * 16 + y) * 16 + z) * 16 + w)
  | _, _, _, _ => None
  end.

(** UTF-8 encoding of a code point, prepended to [s]. *)
Definition utf8_cons (cp : Z) (s : string) : string :=
  if cp <? 128 then String (chr cp) s
  else if cp <? 2048 then
    String (chr (192 + cp / 64)) (String (chr (128 + cp mod 64)) s)
  else if cp <? 65536 then
    String (chr (224 + cp / 4096))
      (String (chr (128 + (cp / 64) mod 64)) (String (chr (128 + cp mod 64)) s))
  else
    String (chr (240 + cp / 262144))
      (String (chr (128 + (cp / 4096) mod 64))
         (String (chr (128 + (cp / 64) mod 64)) (String (chr (128 + cp mod 64)) s))).

Definition is_high_surrogate (cp : Z) : bool := (55296 <=? cp) && (cp <=? 56319).
Definition is_low_surrogate (cp : Z) : bool := (56320 <=? cp) && (cp <=? 57343).
Definition join_surrogates (hi lo : Z) : Z :=
  65536 + (hi - 55296) * 1024 + (lo - 56320).

(** The character a one-letter escape stands for. *)
Definition unescape (c : ascii) : option ascii :=
  if Ascii.eqb c dquote then Some dquote
  else if Ascii.eqb c backslash then Some backslash
  else if Ascii.eqb c "/" then Some "/"%char
  else if Ascii.eqb c "b" then Some (chr 8)
  else if Ascii.eqb c "f" then Some (chr 12)
  else if Ascii.eqb c "n" then Some (chr 10)
  else if Ascii.eqb c "r" then Some (chr 13)
  else if Ascii.eqb c "t" then Some (chr 9)
  else None.

Definition cons_to {A} (f : string → string) (r : option (string * A)) :
    option (string * A) :=
  match r with
  | Some (t, rest) => Some (f t, rest)
  | None => None
  end.

(** The body of a string literal, after its opening quote (strict mode:
    no raw control character). Gives the decoded string and what follows
    the closing quote. *)
Fixpoint scanstring (s : string) : option (string * string) :=
  match s with
  | EmptyString => None
  | String c rest =>
      if Ascii.eqb c dquote then Some (EmptyString, rest)
      else if Ascii.eqb c backslash then
        match rest with
        | EmptyString => None
        | String e rest1 =>
            if Ascii.eqb e "u" then
              match rest1 with
              | String h1 (String h2 (String h3 (String h4 rest2))) =>
                  match hex4 h1 h2 h3 h4 with
                  | None => None
                  | Some cp =>
                      if is_high_surrogate cp then
                        match rest2 with
                        | String b (String u (String l1 (String l2
                            (String l3 (String l4 rest3))))) =>
                            if Ascii.eqb b backslash && Ascii.eqb u "u" then
                              match hex4 l1 l2 l3 l4 with
                              | None => None
                              | Some lo =>
                                  if is_low_surrogate lo then
                                    cons_to (utf8_cons (join_surrogates cp lo))
                                      (scanstring rest3)
                                  else cons_to (utf8_cons cp) (scanstring rest2)
                              end
                            else cons_to (utf8_cons cp) (scanstring rest2)
                        | _ => cons_to (utf8_cons cp) (scanstring rest2)
                        end
                      else cons_to (utf8_cons cp) (scanstring rest2)
                  end
              | _ => None
              end
            else
              match unescape e with
              | Some ch => cons_to (String ch) (scanstring rest1)
              | None => None
              end
        end
      else if code c <? 32 then None
      else cons_to (String c) (scanstring rest)
  end.

(** A number: an optional minus sign; an integer part that is [0] or starts
    with a non-zero digit; an optional fraction, a dot and at least one digit;
    an optional exponent, [e] or [E], an optional sign and at least one digit.
    A [float] when it has a fraction or an exponent, an [int] otherwise. *)
Definition scan_number (s : string) : option (pyval * string) :=
  let '(neg, s0) :=
    match s with
    | String c s' => if Ascii.eqb c "-" then (true, s') else (false, s)
    | EmptyString => (false, s)
    end in
  match s0 with
  | EmptyString => None
  | String c s1 =>
      if is_digit c then
        let '(ip, _, r1) :=
          if Ascii.eqb c "0" then (0, 1%nat, s1) else read_digits s0 0 0 in
        let '(mant, nf, r2) :=
          match r1 with
          | String p (String d r) =>
              if Ascii.eqb p "." && is_digit d
              then read_digits (String d r) ip 0 else (ip, O, r1)
          | _ => (ip, O, r1)
          end in
        match nf, read_exponent r2 with
        | O, None => Some (PInt (if neg then - ip else ip), r2)
        | _, Some (ex, r3) =>
            Some (PFloat (decimal_to_float neg mant (ex - Z.of_nat nf)), r3)
        | S _, None =>
            Some (PFloat (decimal_to_float neg mant (- Z.of_nat nf)), r2)
        end
      else None
  end.

(** [dict[k] = v]: the last value of a repeated key wins, at the place of
    its first occurrence. *)
Fixpoint dict_set (pairs : list (string * pyval)) (k : string) (v : pyval) :
    list (string * pyval) :=
  match pairs with
  | [] => [(k, v)]
  | (k', v') :: pairs' =>
      if String.eqb k' k then (k', v) :: pairs'
      else (k', v') :: dict_set pairs' k v
  end.

(** [d[k]], with [None] for [KeyError]. *)
Fixpoint dict_getitem (pairs : list (string * pyval)) (k : string) : option pyval :=
  match pairs with
  | [] => None
  | (k', v') :: pairs' => if String.eqb k' k then Some v' else dict_getitem pairs' k
  end.

(** [d.get(k, dflt)] *)
Definition dict_get (pairs : list (string * pyval)) (k : string) (dflt : pyval) :
    pyval :=
  default dflt (dict_getitem pairs k).

(** One JSON value at the head of [s], with what follows it. The recursion
    is on [fuel]; every call consumes a character, so the length of the text
    is fuel enough. *)
Fixpoint scan_once (fuel : nat) (s : string) : option (pyval * string) :=
  match fuel with
  | O => None
  | S fuel' =>
      match s with
      | EmptyString => None
      | String c rest =>
          if Ascii.eqb c dquote then
            match scanstring rest with
            | Some (t, r) => Some (PStr t, r)
            | None => None
            end
          else if Ascii.eqb c "{" then
            match skip_ws rest with
            | String c1 r1 =>
                if Ascii.eqb c1 "}" then Some (PDict [], r1)
                else scan_members fuel' (skip_ws rest) []
            | EmptyString => None
            end
          else if Ascii.eqb c "[" then
            match skip_ws rest with
            | String c1 r1 =>
                if Ascii.eqb c1 "]" then Some (PList [], r1)
                else scan_items fuel' (skip_ws rest) []
            | EmptyString => None
            end
          else
            match strip_prefix "null" s, strip_prefix "true" s,
                  strip_prefix "false" s, strip_prefix "NaN" s,
                  strip_prefix "Infinity" s, strip_prefix "-Infinity" s with
            | Some r, _, _, _, _, _ => Some (PNone, r)
            | _, Some r, _, _, _, _ => Some (PBool true, r)
            | _, _, Some r, _, _, _ => Some (PBool false, r)
            | _, _, _, Some r, _, _ => Some (PFloat nan, r)
            | _, _, _, _, Some r, _ => Some (PFloat infinity, r)
            | _, _, _, _, _, Some r => Some (PFloat neg_infinity, r)
            | None, None, None, None, None, None => scan_number s
            end
      end
  end

(** The members of an object from a key on: [key : value], then [}] or a
    comma and the next member. *)
with scan_members (fuel : nat) (s : string) (acc : list (string * pyval)) :
    option (pyval * string) :=
  match fuel with
  | O => None
  | S fuel' =>
      match s with
      | String q s1 =>
          if Ascii.eqb q dquote then
            match scanstring s1 with
            | Some (key, s2) =>
                match skip_ws s2 with
                | String colon s3 =>
                    if Ascii.eqb colon ":" then
                      match scan_once fuel' (skip_ws s3) with
                      | Some (v, s4) =>
                          match skip_ws s4 with
                          | String d s5 =>
                              if Ascii.eqb d "}" then
                                Some (PDict (dict_set acc key v), s5)
                              else if Ascii.eqb d "," then
                                scan_members fuel' (skip_ws s5) (dict_set acc key v)
                              else None
                          | EmptyString => None
                          end
                      | None => None
                      end
                    else None
                | EmptyString => None
                end
            | None => None
            end
          else None
      | EmptyString => None
      end
  end

(** The items of an array from a value on: a value, then the closing
    bracket or a comma and the next item. *)
with scan_items (fuel : nat) (s : string) (acc : list pyval) :
    option (pyval * string) :=
  match fuel with
  | O => None
  | S fuel' =>
      match scan_once fuel' s with
      | Some (v, s1) =>
          match skip_ws s1 with
          | String d s2 =>
              if Ascii.eqb d "]" then Some (PList (acc ++ [v]), s2)
              else if Ascii.eqb d "," then scan_items fuel' (skip_ws s2) (acc ++ [v])
              else None
          | EmptyString => None
          end
      | None => None
      end
  end.

(** [json.loads(s)]: one value, surrounded by white space only. *)
Definition json_loads (s : string) : exn + pyval :=
  match scan_once (S (String.length s)) (skip_ws s) with
  | Some (v, rest) =>
      match skip_ws rest with
      | EmptyString => inr v
      | String _ _ => inl JSONDecodeError
      end
  | None => inl JSONDecodeError
  end.

(** ** Dictionary keys *)

(** The hashable values: what a [dict] can hold as a key. *)
Inductive pykey : Type :=
  | KNone
  | KBool (b : bool)
  | KInt (z : Z)
  | KFloat (f : float)
  | KStr (s : string).

(** [hash(v)] succeeds on these; lists and dicts are unhashable. *)
Definition as_key (v : pyval) : exn + pykey :=
  match v with
  | PNone => inr KNone
  | PBool b => inr (KBool b)
  | PInt z => inr (KInt z)
  | PFloat f => inr (KFloat f)
  | PStr s => inr (KStr s)
  | PList _ | PDict _ => inl TypeError
  end.

Definition key_val (k : pykey) : pyval :=
  match k with
  | KNone => PNone
  | KBool b => PBool b
  | KInt z => PInt z
  | KFloat f => PFloat f
  | KStr s => PStr s
  end.

(** The number a numeric key stands for: a float is [m * 2^e] exactly, and
    an [int] is itself; [NDyadic m e] keeps [m] odd (or [m = e = 0]), so that
    a number has one form. *)
Inductive number : Type :=
  | NNaN
  | NInf (neg : bool)
  | NDyadic (m e : Z).

Fixpoint odd_part (p : positive) : positive * Z :=
  match p with
  | xO q => let '(r, t) := odd_part q in (r, t + 1)
  | _ => (p, 0)
  end.

Definition dyadic (m e : Z) : number :=
  match m with
  | Z0 => NDyadic 0 0
  | Zpos p => let '(q, t) := odd_part p in NDyadic (Zpos q) (e + t)
  | Zneg p => let '(q, t) := odd_part p in NDyadic (Zneg q) (e + t)
  end.

Definition float_number (f : float) : number :=
  match Prim2SF f with
  | S754_zero _ => NDyadic 0 0
  | S754_infinity s => NInf s
  | S754_nan => NNaN
  | S754_finite s m e => dyadic (cond_Zopp s (Zpos m)) e
  end.

Definition int_of_bool (b : bool) : Z := if b then 1 else 0.

(** What decides whether two keys are one entry of a dict. [hash] and [==]
    see a number by its value, whatever its type ([True == 1 == 1.0]), and
    [None] and each string stand alone. The lookup tries identity before
    [==]: this matters for [nan] only, which equals nothing, and there it
    succeeds, every [nan] that [json.loads] returns being the one object
    [json.decoder.NaN]. *)
Inductive key_class : Type :=
  | CNone
  | CStr (s : string)
  | CNum (n : number).

Definition class_of (k : pykey) : key_class :=
  match k with
  | KNone => CNone
  | KStr s => CStr s
  | KBool b => CNum (dyadic (int_of_bool b) 0)
  | KInt z => CNum (dyadic z 0)
  | KFloat f => CNum (float_number f)
  end.

#[export] Instance number_eq_dec : EqDecision number.
Proof. solve_decision. Defined.

#[export] Instance key_class_eq_dec : EqDecision key_class.
Proof. solve_decision. Defined.

(** The stored key [k] is the entry of the key [a] looked up. *)
Definition key_match (k a : pykey) : bool :=
  bool_decide (class_of k = class_of a).

(** ** The module's global objects and what the program does to the world *)

(** The inner dict [{"count": ..., "sentiment_sum": ...}] of an author. *)
Record stats : Type := { count : Z; sentiment_sum : float }.

(** [defaultdict]'s factory, [lambda: {"count": 0, "sentiment_sum": 0.0}] *)
Definition default_stats : stats := {| count := 0; sentiment_sum := 0%float |}.

(** What the axes show: the bars (author, height) and the count written
    above each. *)
Record chart : Type := { bars : list (pykey * float); annotations : list Z }.

Definition empty_chart : chart := {| bars := []; annotations := [] |}.

Inductive info_msg : Type :=
  | StartConsumer
  | Processed (author : pyval) (sentiment : float)
  | StoppedByUser
  | ConsumerClosed.

Inductive error_msg : Type :=
  | DataFileMissing
  | ExpectedDict (type_name : string)
  | ErrorProcessing (e : exn).

Inductive effect : Type :=
  | LogInfo (m : info_msg)
  | LogError (m : error_msg)
  | Print (s : string)
  | Sleep (seconds : float)
  | Draw
  | Ioff
  | Show.

(** [author_stats] in insertion order, the axes, and the effects so far,
    oldest first. *)
Record world : Type := {
  author_stats : list (pykey * stats);
  ax : chart;
  trace : list effect
}.

Definition initial_world : world :=
  {| author_stats := []; ax := empty_chart; trace := [] |}.

Definition set_author_stats (d : list (pykey * stats)) (w : world) : world :=
  {| author_stats := d; ax := ax w; trace := trace w |}.

Definition set_ax (c : chart) (w : world) : world :=
  {| author_stats := author_stats w; ax := c; trace := trace w |}.

Definition emit (e : effect) (w : world) : world :=
  {| author_stats := author_stats w; ax := ax w; trace := trace w ++ [e] |}.

(** ** The monad: global state, and a result or a raised exception *)

Definition M (A : Type) : Type := world → (exn + A) * world.

#[export] Instance M_ret : MRet M := λ A x w, (inr x, w).

#[export] Instance M_bind : MBind M := λ A B k m w,
  match m w with
  | (inr x, w') => k x w'
  | (inl e, w') => (inl e, w')
  end.

Definition raise {A} (e : exn) : M A := λ w, (inl e, w).

(** The result of a library call, raised when it is an exception. *)
Definition lift {A} (r : exn + A) : M A := λ w, (r, w).

(** [try: body except Exception as e: handler e]; what [body] did before it
    raised stays done. *)
Definition try_except {A} (body : M A) (handler : exn → M A) : M A := λ w,
  match body w with
  | (inl e, w') => handler e w'
  | (inr x, w') => (inr x, w')
  end.

Definition perform (e : effect) : M unit := λ w, (inr tt, emit e w).

Definition logger_info (m : info_msg) : M unit := perform (LogInfo m).
Definition logger_error (m : error_msg) : M unit := perform (LogError m).

(** ** [author_stats], a [defaultdict] *)

(** The position of the entry whose key matches [a], counting from [i]. *)
Fixpoint find_slot (a : pykey) (i : nat) (d : list (pykey * stats)) : option nat :=
  match d with
  | [] => None
  | (k, _) :: d' => if key_match k a then Some i else find_slot a (S i) d'
  end.

(** [author_stats[a]]: the inner dict of [a], by reference (its position);
    a missing key is first inserted, at the end, with the factory's value. *)
Definition author_stats_getitem (a : pykey) : M nat := λ w,
  match find_slot a 0 (author_stats w) with
  | Some i => (inr i, w)
  | None =>
      (inr (length (author_stats w)),
       set_author_stats (author_stats w ++ [(a, default_stats)]) w)
  end.

(** The inner dict at position [r]. A position handed out by
    [author_stats_getitem] stays valid: entries are never removed. *)
Definition stats_at (r : nat) (d : list (pykey * stats)) : stats :=
  default default_stats (snd <$> d !! r).

(** [stats[field]] for the inner dict at position [r]. *)
Definition stats_getitem {A} (r : nat) (field : stats → A) : M A := λ w,
  (inr (field (stats_at r (author_stats w))), w).

(** [stats["count"] += n] *)
Definition iadd_count (r : nat) (n : Z) : M unit := λ w,
  (inr tt,
   set_author_stats
     (alter (λ e, (e.1, {| count := count e.2 + n;
                           sentiment_sum := sentiment_sum e.2 |}))
        r (author_stats w)) w).

(** [stats["sentiment_sum"] += x] *)
Definition iadd_sentiment_sum (r : nat) (x : float) : M unit := λ w,
  (inr tt,
   set_author_stats
     (alter (λ e, (e.1, {| count := count e.2;
                           sentiment_sum := (sentiment_sum e.2 + x)%float |}))
        r (author_stats w)) w).

(** [list(author_stats.keys())] *)
Definition author_stats_keys : M (list pykey) := λ w,
  (inr (author_stats w).*1, w).

(** ** [update_chart] *)

Definition ax_clear : M unit := λ w, (inr tt, set_ax empty_chart w).

Definition ax_bar (authors : list pykey) (avgs : list float) : M unit := λ w,
  (inr tt, set_ax {| bars := zip authors avgs;
                     annotations := annotations (ax w) |} w).

(** [for rect, c in zip(bars, counts): ax.annotate(f"n={c}", ...)] *)
Definition ax_annotate (counts : list Z) : M unit := λ w,
  (inr tt, set_ax {| bars := bars (ax w);
                     annotations := (zip (bars (ax w)) counts).*2 |} w).

Definition update_chart : M unit :=
  ax_clear;;
  authors ← author_stats_keys;
  counts ← mapM (λ a, s ← author_stats_getitem a; stats_getitem s count) authors;
  avgs ← mapM (λ a,
            s ← author_stats_getitem a;
            c ← stats_getitem s count;
            if c =? 0 then mret 0.5%float
            else
              s1 ← author_stats_getitem a;
              x ← stats_getitem s1 sentiment_sum;
              s2 ← author_stats_getitem a;
              n ← stats_getitem s2 count;
              lift (py_truediv x n)) authors;
  ax_bar authors avgs;;
  ax_annotate counts;;
  perform Draw.

(** ** [process_message] *)

Definition process_message (message : string) : M unit :=
  try_except
    (message_dict ← lift (json_loads message);
     match message_dict with
     | PDict pairs =>
         let author := dict_get pairs "author" (PStr "unknown") in
         sentiment ← lift (py_float (dict_get pairs "sentiment" (PFloat 0.5)));
         k ← lift (as_key author);
         stats ← author_stats_getitem k;
         iadd_count stats 1;;
         iadd_sentiment_sum stats sentiment;;
         logger_info (Processed author sentiment);;
         update_chart
     | _ => logger_error (ExpectedDict (py_type message_dict))
     end)
    (λ e, logger_error (ErrorProcessing e)).

(** ** The data file and [main] *)

(** The text file as the consumer's handle sees it: what has been written so
    far (after newline translation) and the read cursor. *)
Record file : Type := { content : string; pos : nat }.

(** [open(DATA_FILE, "r")] *)
Definition open_file (text : string) : file := {| content := text; pos := 0 |}.

(** [file.seek(0, os.SEEK_END)] *)
Definition seek_end (f : file) : file :=
  {| content := content f; pos := String.length (content f) |}.

(** The producer appends [chunk] to the file. *)
Definition append (chunk : string) (f : file) : file :=
  {| content := content f ++ chunk; pos := pos f |}.

Fixpoint drop_chars (n : nat) (s : string) : string :=
  match n, s with
  | O, _ => s
  | S n', String _ s' => drop_chars n' s'
  | S _, EmptyString => EmptyString
  end.

Definition newline : ascii := chr 10.

(** The text up to and including the first newline, or all of it. *)
Fixpoint take_line (s : string) : string :=
  match s with
  | EmptyString => EmptyString
  | String c s' =>
      if Ascii.eqb c newline then String c EmptyString else String c (take_line s')
  end.

(** [file.readline()]: from the cursor to the end of the line, or to the
    end of the file when no newline has been written yet. *)
Definition readline (f : file) : string * file :=
  let line := take_line (drop_chars (pos f) (content f)) in
  (line, {| content := content f; pos := (pos f + String.length line)%nat |}).

(** What one turn of the loop gets from the file: a line to process when
    [line.strip()] is non-empty, and otherwise nothing yet. *)
Inductive TailEvent : Type :=
  | Line (text : string)
  | NoDataYet.

Definition next_line (f : file) : TailEvent * file :=
  let '(line, f') := readline f in
  (if str_bool (py_strip line) then Line line else NoDataYet, f').

(** What happens around one turn of the [while True] loop: the producer has
    appended [chunk] (possibly nothing) since the last turn, or the user
    interrupts the program. *)
Inductive tick : Type :=
  | Appended (chunk : string)
  | CtrlC.

Inductive loop_end : Type :=
  | Interrupted
  | Raised (e : exn)
  | StillTailing.

(** The loop of [main], run against a script of ticks; [evs] collects what
    each turn got from the file. *)
Fixpoint tail_loop (script : list tick) (f : file) (evs : list TailEvent)
    (w : world) : loop_end * file * list TailEvent * world :=
  match script with
  | [] => (StillTailing, f, evs, w)
  | CtrlC :: _ => (Interrupted, f, evs, w)
  | Appended chunk :: script' =>
      let '(ev, f') := next_line (append chunk f) in
      let '(r, w') :=
        match ev with
        | Line line => process_message line w
        | NoDataYet => perform (Sleep 0.5) w
        end in
      match r with
      | inr _ => tail_loop script' f' (evs ++ [ev]) w'
      | inl e => (Raised e, f', evs ++ [ev], w')
      end
  end.

Inductive outcome : Type :=
  | Exit (status : Z)
  | Running.

Record run : Type := {
  result : outcome;
  events : list TailEvent;
  handle : option file;
  final : world
}.

(** The [finally] block. *)
Definition finally (w : world) : world :=
  emit (LogInfo ConsumerClosed) (emit Show (emit Ioff w)).

(** [main()], then the exit of the interpreter. [data_file] is the content of
    [DATA_FILE] when it exists. The module level has left [author_stats] and
    the axes empty. *)
Definition main (data_file : option string) (script : list tick) : run :=
  let w0 := emit (LogInfo StartConsumer) initial_world in
  match data_file with
  | None =>
      {| result := Exit 1; events := []; handle := None;
         final := emit (LogError DataFileMissing) w0 |}
  | Some text =>
      let f := seek_end (open_file text) in
      let w1 := emit (Print "Consumer ready. Waiting for new messages...") w0 in
      match tail_loop script f [] w1 with
      | (Interrupted, f', evs, w2) =>
          {| result := Exit 0; events := evs; handle := Some f';
             final := finally (emit (LogInfo StoppedByUser) w2) |}
      | (Raised _, f', evs, w2) =>
          {| result := Exit 1; events := evs; handle := Some f';
             final := finally w2 |}
      | (StillTailing, f', evs, w2) =>
          {| result := Running; events := evs; handle := Some f'; final := w2 |}
      end
  end.

(** ** Reading the program *)

(** The world after a command. *)
Definition exec {A} (m : M A) (w : world) : world := (m w).2.

(** The world after [process_message] on each message in turn. *)
Definition process_all (messages : list string) (w : world) : world :=
  foldl (λ w m, exec (process_message m) w) w messages.

(** What [process_message] makes of a message before it touches
    [author_stats]: the author, its key and the sentiment; or else the
    diagnostic it logs. *)
Definition parse_update (message : string) : error_msg + (pyval * pykey * float) :=
  match json_loads message with
  | inl e => inl (ErrorProcessing e)
  | inr (PDict pairs) =>
      match py_float (dict_get pairs "sentiment" (PFloat 0.5)) with
      | inl e => inl (ErrorProcessing e)
      | inr sentiment =>
          match as_key (dict_get pairs "author" (PStr "unknown")) with
          | inl e => inl (ErrorProcessing e)
          | inr k => inr (dict_get pairs "author" (PStr "unknown"), k, sentiment)
          end
      end
  | inr v => inl (ExpectedDict (py_type v))
  end.

(** The updates carried by the accepted messages, in order. *)
Definition accepted_updates (messages : list string) : list (pykey * float) :=
  omap (λ m, match parse_update m with
             | inr (_, k, v) => Some (k, v)
             | inl _ => None
             end) messages.

(** The values of the updates that go to the entry of [g]. *)
Definition values_for (g : pykey) (updates : list (pykey * float)) : list float :=
  omap (λ u, if key_match g u.1 then Some u.2 else None) updates.

(** One more message of sentiment [x]. *)
Definition bump (x : float) (s : stats) : stats :=
  {| count := count s + 1; sentiment_sum := (sentiment_sum s + x)%float |}.

(** The aggregation step, as the specification words it: look up or create
    the stats of the group (created with count 0 and sum 0.0), add one to the
    count and the value to the sum. *)
Definition apply_update (d : list (pykey * stats)) (u : pykey * float) :
    list (pykey * stats) :=
  match find_slot u.1 0 d with
  | Some i => alter (λ e, (e.1, bump u.2 e.2)) i d
  | None => d ++ [(u.1, bump u.2 default_stats)]
  end.

(** The groups of a sequence of keys, each by its first key. *)
Definition groups_seen (ks : list pykey) : list pykey :=
  foldl (λ acc k, if existsb (λ k', key_match k' k) acc then acc else acc ++ [k])
    [] ks.

(** The inner dict that [author_stats[a]] gives for a stored key. *)
Definition entry_of (d : list (pykey * stats)) (a : pykey) : stats :=
  match find_slot a 0 d with
  | Some i => stats_at i d
  | None => default_stats
  end.

(** The stats kept under the key [a], if any. *)
Definition lookup_stats (d : list (pykey * stats)) (a : pykey) : option stats :=
  match find_slot a 0 d with
  | Some i => snd <$> d !! i
  | None => None
  end.

(** The results of a comprehension: all of them, or the first exception. *)
Fixpoint collect {A} (l : list (exn + A)) : exn + list A :=
  match l with
  | [] => inr []
  | inl e :: _ => inl e
  | inr x :: l' =>
      match collect l' with
      | inl e => inl e
      | inr xs => inr (x :: xs)
      end
  end.

(** The height of an author's bar: [sentiment_sum / count], and 0.5 for a
    count of zero. *)
Definition bar_height (s : stats) : exn + float :=
  if count s =? 0 then inr 0.5%float
  else py_truediv (sentiment_sum s) (count s).

(** The chart of a dict: a bar per key, annotated with its count. *)
Definition chart_of (d : list (pykey * stats)) : exn + chart :=
  match collect ((λ a, bar_height (entry_of d a)) <$> d.*1) with
  | inl e => inl e
  | inr avgs =>
      inr {| bars := zip d.*1 avgs;
             annotations :=
               (zip (zip d.*1 avgs) ((λ a, count (entry_of d a)) <$> d.*1)).*2 |}
  end.

(** What [update_chart] would draw in the world [w]. *)
Definition rendered (w : world) : exn + chart :=
  match update_chart w with
  | (inr _, w') => inr (ax w')
  | (inl e, _) => inl e
  end.

(** Every key finds its own entry: no two keys of one class. *)
Definition own_slots (d : list (pykey * stats)) : Prop :=
  ∀ i k s, d !! i = Some (k, s) → find_slot k 0 d = Some i.

(** The text the handle has not read yet. *)
Definition unread (f : file) : string := drop_chars (pos f) (content f).

(** The cursor is inside the file. *)
Definition valid (f : file) : Prop := (pos f ≤ String.length (content f))%nat.

(** Whether the character [c] occurs in [s]. *)
Fixpoint occurs (c : ascii) (s : string) : bool :=
  match s with
  | EmptyString => false
  | String c' s' => Ascii.eqb c' c || occurs c s'
  end.

(** The chunks of a script, when no tick of it is an interrupt. *)
Definition appends (chunks : list string) : list tick := Appended <$> chunks.

(** The lines among tail events. *)
Definition lines_of (evs : list TailEvent) : list string :=
  omap (λ ev, match ev with Line l => Some l | NoDataYet => None end) evs.

Definition nl : string := String newline EmptyString.

(** ** More readings of the program *)

(** Whether the text is empty or white space only. *)
Fixpoint all_space (s : string) : bool :=
  match s with
  | EmptyString => true
  | String c s' => py_isspace c && all_space s'
  end.

(** What a turn of the loop makes of the text that [readline] returned. *)
Definition event_of (line : string) : TailEvent :=
  if all_space line then NoDataYet else Line line.

(** The lines as the producer writes them, each ended by a newline. *)
Definition concat_lines (ls : list string) : string :=
  foldr (λ l acc, (l ++ nl ++ acc)%string) EmptyString ls.



(** The "Processed message" lines of a trace: author and sentiment. *)
Definition processed_log (tr : list effect) : list (pyval * float) :=
  omap (λ e, match e with
             | LogInfo (Processed a x) => Some (a, x)
             | _ => None
             end) tr.

(** The author and the sentiment of each accepted message, in order. *)
Definition accepted_log (messages : list string) : list (pyval * float) :=
  omap (λ m, match parse_update m with
             | inr (a, _, x) => Some (a, x)
             | inl _ => None
             end) messages.

(** How many times the trace sleeps, and how many turns got no line. *)
Definition count_sleeps (tr : list effect) : nat :=
  length (omap (λ e, match e with Sleep _ => Some tt | _ => None end) tr).

Definition count_idle (evs : list TailEvent) : nat :=
  length (omap (λ ev, match ev with NoDataYet => Some tt | Line _ => None end) evs).

(** ** Sample messages *)

Definition msg_alice_08 : string := dq "{'author':'alice','sentiment':0.8}".
Definition msg_bob_02 : string := dq "{'author':'bob','sentiment':0.2}".
Definition msg_alice_06 : string := dq "{'author':'alice','sentiment':0.6}".

(** The three messages of the end-to-end scenario. *)
Definition scenario : list string := [msg_alice_08; msg_bob_02; msg_alice_06].

(** A record cut in two by the producer's writes. *)
Definition record_head : string := dq "{'author':'a','se".
Definition record_tail : string := dq "ntiment':0.9}" ++ nl.

(** * Properties *)

(** ** The monad *)

Lemma bind_inr {A B} (m : M A) (k : A → M B) w x w' :
  m w = (inr x, w') → (m ≫= k) w = k x w'.
Proof. intros H. unfold mbind, M_bind. by rewrite H. Qed.

Lemma bind_inl {A B} (m : M A) (k : A → M B) w e w' :
  m w = (inl e, w') → (m ≫= k) w = (inl e, w').
Proof. intros H. unfold mbind, M_bind. by rewrite H. Qed.

(** A loop whose body reads without writing: the results are collected, the
    world is as before. *)
Lemma mapM_reads {A B} (f : A → M B) (g : A → exn + B) (l : list A) w :
  (∀ a, a ∈ l → f a w = (g a, w)) → mapM f l w = (collect (g <$> l), w).
Proof.
  induction l as [|a l IH]; intros Hf; [done|].
  cbn [mapM fmap list_fmap collect].
  pose proof (Hf a ltac:(left)) as Ha.
  destruct (g a) as [e|y] eqn:Hg.
  - by erewrite bind_inl.
  - erewrite bind_inr by exact Ha.
    assert (IH' := IH (λ a' H, Hf a' (list_elem_of_further _ _ _ H))).
    destruct (collect (g <$> l)) as [e|ys].
    + by erewrite bind_inl by exact IH'.
    + by erewrite bind_inr by exact IH'.
Qed.

(** ** Keys and lookups *)

Lemma key_match_refl k : key_match k k = true.
Proof. by apply bool_decide_eq_true. Qed.

Lemma key_match_sym k a : key_match k a = key_match a k.
Proof. unfold key_match. apply bool_decide_ext. split; congruence. Qed.

Lemma key_match_trans k a b :
  key_match k a = true → key_match a b = true → key_match k b = true.
Proof. unfold key_match. rewrite !bool_decide_eq_true. congruence. Qed.

Lemma find_slot_from a i d : find_slot a i d = (λ j, i + j)%nat <$> find_slot a 0 d.
Proof.
  revert i. induction d as [|[k s] d IH]; intros i; cbn; [done|].
  destruct (key_match k a); cbn; [f_equal; lia|].
  rewrite (IH (S i)), (IH 1%nat). destruct (find_slot a 0 d); cbn; [f_equal; lia|done].
Qed.

Lemma find_slot_cons a k s d :
  find_slot a 0 ((k, s) :: d) =
  if key_match k a then Some 0%nat else S <$> find_slot a 0 d.
Proof. cbn. destruct (key_match k a); [done|]. by rewrite find_slot_from. Qed.

(** A found slot holds a key of the class looked up, and is the first. *)
Lemma find_slot_Some a d i :
  find_slot a 0 d = Some i →
  ∃ k s, d !! i = Some (k, s) ∧ key_match k a = true.
Proof.
  revert i. induction d as [|[k s] d IH]; intros i; [done|].
  rewrite find_slot_cons. destruct (key_match k a) eqn:Hk.
  - intros [= <-]. eauto.
  - destruct (find_slot a 0 d) as [j|]; [|done]. intros [= <-].
    destruct (IH j eq_refl) as (k' & s' & ? & ?). eauto.
Qed.

Lemma find_slot_None a d :
  find_slot a 0 d = None ↔ ∀ k, k ∈ d.*1 → key_match k a = false.
Proof.
  induction d as [|[k s] d IH]; [split; [intros _ k H; inversion H|done]|].
  rewrite find_slot_cons. cbn. destruct (key_match k a) eqn:Hk.
  - split; [done|]. intros H. rewrite H in Hk by left. done.
  - destruct (find_slot a 0 d) as [j|]; cbn.
    + split; [done|]. intros H. destruct IH as [_ IH].
      discriminate IH. intros k' Hk'. apply H. by right.
    + split; [|done]. intros _ k' Hk'. apply elem_of_cons in Hk' as [->|Hk']; [done|].
      by apply IH.
Qed.

Lemma find_slot_is_Some a d : a ∈ d.*1 → is_Some (find_slot a 0 d).
Proof.
  intros Ha. destruct (find_slot a 0 d) eqn:H; [eauto|].
  rewrite find_slot_None in H. specialize (H a Ha). by rewrite key_match_refl in H.
Qed.

(** The slot found depends on the keys only. *)
Lemma find_slot_keys a i d d' : d.*1 = d'.*1 → find_slot a i d = find_slot a i d'.
Proof.
  revert i d'. induction d as [|[k s] d IH]; intros i [|[k' s'] d']; try done.
  cbn. intros [= <- H]. by rewrite (IH _ d').
Qed.

Lemma find_slot_app a d d' :
  find_slot a 0 (d ++ d') =
  match find_slot a 0 d with
  | Some i => Some i
  | None => (λ j, length d + j)%nat <$> find_slot a 0 d'
  end.
Proof.
  induction d as [|[k s] d IH].
  - cbn. destruct (find_slot a 0 d'); cbn; [f_equal|done].
  - rewrite <- app_comm_cons, !find_slot_cons. destruct (key_match k a); [done|].
    rewrite IH. destruct (find_slot a 0 d); [done|].
    destruct (find_slot a 0 d'); cbn; [f_equal|done].
Qed.

(** ** [update_chart] *)

Lemma getitem_hit a w i :
  find_slot a 0 (author_stats w) = Some i → author_stats_getitem a w = (inr i, w).
Proof. intros H. unfold author_stats_getitem. by rewrite H. Qed.

(** A subscript [author_stats[a][field]] on a stored key reads the inner dict
    of [a] and leaves the world as it is. *)
Lemma subscript_read {A} (field : stats → A) a w :
  a ∈ (author_stats w).*1 →
  (s ← author_stats_getitem a; stats_getitem s field) w =
  (inr (field (entry_of (author_stats w) a)), w).
Proof.
  intros Ha. destruct (find_slot_is_Some _ _ Ha) as [i Hi].
  erewrite bind_inr by (by apply getitem_hit).
  unfold stats_getitem, entry_of. by rewrite Hi.
Qed.

Lemma bar_read a w :
  a ∈ (author_stats w).*1 →
  (s ← author_stats_getitem a;
   c ← stats_getitem s count;
   if c =? 0 then mret 0.5%float
   else
     s1 ← author_stats_getitem a;
     x ← stats_getitem s1 sentiment_sum;
     s2 ← author_stats_getitem a;
     n ← stats_getitem s2 count;
     lift (py_truediv x n)) w =
  (bar_height (entry_of (author_stats w) a), w).
Proof.
  intros Ha. destruct (find_slot_is_Some _ _ Ha) as [i Hi].
  erewrite bind_inr by (by apply getitem_hit).
  erewrite bind_inr by reflexivity.
  unfold bar_height, entry_of. rewrite Hi.
  destruct (count (stats_at i (author_stats w)) =? 0); [done|].
  erewrite bind_inr by (by apply getitem_hit).
  erewrite bind_inr by reflexivity.
  erewrite bind_inr by (by apply getitem_hit).
  by erewrite bind_inr by reflexivity.
Qed.

(** [update_chart] clears the axes, reads [author_stats], and draws its
    chart; when a division raises, the axes stay cleared. *)
Lemma update_chart_eq w :
  update_chart w =
  match chart_of (author_stats w) with
  | inr c => (inr tt, emit Draw (set_ax c w))
  | inl e => (inl e, set_ax empty_chart w)
  end.
Proof.
  unfold update_chart.
  erewrite bind_inr by reflexivity.
  erewrite bind_inr by reflexivity.
  set (w1 := set_ax empty_chart w). set (d := author_stats w).
  change (author_stats w1) with d.
  assert (∀ l : list pykey, collect ((λ a, inr (count (entry_of d a))) <$> l)
            = inr ((λ a, count (entry_of d a)) <$> l)) as Hc.
  { induction l as [|a l IH]; [done|]. cbn. change (list_fmap _ _ ?f l) with (f <$> l).
    by rewrite IH. }
  erewrite bind_inr; last first.
  { rewrite (mapM_reads _ (λ a, inr (count (entry_of d a)))), Hc; [done|].
    intros a Ha. by apply (subscript_read count a w1). }
  unfold chart_of. fold d.
  destruct (collect ((λ a, bar_height (entry_of d a)) <$> d.*1)) as [e|avgs] eqn:Havgs.
  - erewrite bind_inl; [done|].
    rewrite (mapM_reads _ (λ a, bar_height (entry_of d a))), Havgs; [done|].
    intros a Ha. by apply (bar_read a w1).
  - erewrite bind_inr; last first.
    { rewrite (mapM_reads _ (λ a, bar_height (entry_of d a))), Havgs; [done|].
      intros a Ha. by apply (bar_read a w1). }
    done.
Qed.

(** ** [process_message] *)

(** The three statements on [author_stats] are one aggregation step. *)
Lemma stats_update_eq k x w :
  (stats ← author_stats_getitem k;
   iadd_count stats 1;; iadd_sentiment_sum stats x) w =
  (inr tt, set_author_stats (apply_update (author_stats w) (k, x)) w).
Proof.
  unfold apply_update, author_stats_getitem, mbind, M_bind, iadd_count,
    iadd_sentiment_sum. cbn.
  destruct (find_slot k 0 (author_stats w)) as [i|]; cbn; unfold set_author_stats; cbn.
  - do 2 f_equal. rewrite list_alter_alter_eq. by apply list_alter_ext.
  - do 2 f_equal.
    rewrite <- (Nat.add_0_r (length (author_stats w))), !alter_app_r. done.
Qed.

(** [process_message] never raises. It logs the diagnostic of a message it
    rejects; for one it accepts, it updates [author_stats], logs the message
    and redraws the chart, logging the exception if the redrawing raises. *)
Lemma process_message_eq message w :
  process_message message w =
  (inr tt,
   match parse_update message with
   | inl err => emit (LogError err) w
   | inr (author, k, x) =>
       let w1 := emit (LogInfo (Processed author x))
                   (set_author_stats (apply_update (author_stats w) (k, x)) w) in
       match chart_of (author_stats w1) with
       | inr c => emit Draw (set_ax c w1)
       | inl e => emit (LogError (ErrorProcessing e)) (set_ax empty_chart w1)
       end
   end).
Proof.
  unfold process_message, parse_update, try_except.
  destruct (json_loads message) as [e|v] eqn:Hj.
  { by erewrite bind_inl by reflexivity. }
  erewrite bind_inr by reflexivity.
  destruct v as [| | | | | |pairs]; try reflexivity.
  destruct (py_float (dict_get pairs "sentiment" (PFloat 0.5))) as [e|x].
  { by erewrite bind_inl by reflexivity. }
  erewrite bind_inr by reflexivity.
  destruct (as_key (dict_get pairs "author" (PStr "unknown"))) as [e|k].
  { by erewrite bind_inl by reflexivity. }
  erewrite bind_inr by reflexivity.
  pose proof (stats_update_eq k x w) as Hu.
  unfold mbind, M_bind in Hu |- *.
  destruct (author_stats_getitem k w) as [[e|i] w0]; [done|].
  destruct (iadd_count i 1 w0) as [[e|[]] w0']; [done|].
  rewrite Hu. cbn -[update_chart chart_of apply_update].
  rewrite update_chart_eq. cbn -[chart_of apply_update].
  by destruct (chart_of _).
Qed.

Lemma process_message_stats message w :
  author_stats (exec (process_message message) w) =
  match parse_update message with
  | inl _ => author_stats w
  | inr (_, k, x) => apply_update (author_stats w) (k, x)
  end.
Proof.
  unfold exec. rewrite process_message_eq. cbn -[chart_of apply_update].
  destruct (parse_update message) as [err|[[author k] x]]; [done|].
  cbn -[chart_of apply_update]. by destruct (chart_of _).
Qed.

(** [author_stats] after a sequence of messages is the fold of the
    aggregation step over the updates of the accepted ones. *)
Lemma process_all_stats messages w :
  author_stats (process_all messages w) =
  foldl apply_update (author_stats w) (accepted_updates messages).
Proof.
  revert w. induction messages as [|m ms IH]; intros w; [done|].
  change (process_all (m :: ms) w) with (process_all ms (exec (process_message m) w)).
  rewrite IH, process_message_stats. unfold accepted_updates. cbn [omap list_omap].
  by destruct (parse_update m) as [err|[[author k] x]].
Qed.

(** ** The aggregation step on [author_stats] *)

Lemma alter_keys (f : stats → stats) i (d : list (pykey * stats)) :
  (alter (λ e, (e.1, f e.2)) i d).*1 = d.*1.
Proof.
  revert i. induction d as [|[k s] d IH]; intros [|i]; cbn; try done.
  f_equal. apply IH.
Qed.

Lemma apply_update_keys d u :
  (apply_update d u).*1 =
  if existsb (λ k, key_match k u.1) d.*1 then d.*1 else d.*1 ++ [u.1].
Proof.
  unfold apply_update.
  destruct (find_slot u.1 0 d) as [i|] eqn:Hf.
  - rewrite alter_keys. apply find_slot_Some in Hf as (k & s & Hk & Hm).
    assert (existsb (λ k, key_match k u.1) d.*1 = true) as ->; [|done].
    apply existsb_exists. exists k. split; [|done].
    apply list_elem_of_In, list_elem_of_lookup. exists i.
    by rewrite list_lookup_fmap, Hk.
  - rewrite fmap_app. cbn.
    assert (existsb (λ k, key_match k u.1) d.*1 = false) as ->; [|done].
    apply not_true_is_false. rewrite existsb_exists. intros (k & Hk & Hm).
    rewrite find_slot_None in Hf. apply list_elem_of_In in Hk.
    by rewrite (Hf k Hk) in Hm.
Qed.

Lemma foldl_apply_update_keys d us :
  (foldl apply_update d us).*1 =
  foldl (λ acc k, if existsb (λ k', key_match k' k) acc then acc else acc ++ [k])
    d.*1 us.*1.
Proof.
  revert d. induction us as [|u us IH]; intros d; [done|].
  cbn -[apply_update]. by rewrite IH, apply_update_keys.
Qed.

Lemma own_slots_nil : own_slots [].
Proof. by intros i k s. Qed.

Lemma own_slots_apply d u : own_slots d → own_slots (apply_update d u).
Proof.
  intros Hd i k s. unfold apply_update.
  destruct (find_slot u.1 0 d) as [j|] eqn:Hf.
  - intros Hi. rewrite (find_slot_keys _ _ _ d) by apply alter_keys.
    rewrite list_lookup_alter in Hi. case_decide; subst.
    + destruct (d !! i) as [[k' s']|] eqn:Hk; [|done].
      cbn in Hi. injection Hi as <- _. by eapply Hd.
    + by eapply Hd.
  - intros Hi. rewrite find_slot_app.
    apply lookup_app_Some in Hi as [Hi|[Hlen Hi]].
    + by rewrite (Hd _ _ _ Hi).
    + destruct (i - length d)%nat as [|n] eqn:Hn; [|done].
      cbn in Hi. injection Hi as <- _. rewrite Hf, find_slot_cons, key_match_refl.
      cbn. f_equal. lia.
Qed.

Lemma own_slots_foldl d us : own_slots d → own_slots (foldl apply_update d us).
Proof.
  revert d. induction us as [|u us IH]; intros d Hd; [done|].
  cbn -[apply_update]. by apply IH, own_slots_apply.
Qed.

(** Keys of one class find the same slot. *)
Lemma find_slot_class a b d :
  key_match a b = true → find_slot a 0 d = find_slot b 0 d.
Proof.
  intros Hab. unfold key_match in Hab. apply bool_decide_eq_true in Hab.
  generalize 0%nat. induction d as [|[k s] d IH]; intros i; [done|].
  cbn [find_slot]. unfold key_match. rewrite Hab. by rewrite IH.
Qed.

(** The step on the stats kept under [g]: bumped by an update of its class,
    untouched by any other. *)
Lemma lookup_stats_apply d g u :
  lookup_stats (apply_update d u) g =
  if key_match g u.1
  then Some (bump u.2 (default default_stats (lookup_stats d g)))
  else lookup_stats d g.
Proof.
  unfold lookup_stats, apply_update.
  destruct (key_match g u.1) eqn:Hg.
  - rewrite <- (find_slot_class _ _ _ Hg).
    destruct (find_slot g 0 d) as [i|] eqn:Hf.
    + rewrite (find_slot_keys _ _ _ d), Hf by apply alter_keys.
      rewrite list_lookup_alter_eq.
      apply find_slot_Some in Hf as (k & s & -> & _). done.
    + rewrite find_slot_app, Hf, find_slot_cons.
      rewrite key_match_sym, Hg. cbn.
      rewrite lookup_app_r, Nat.add_0_r, Nat.sub_diag by lia. done.
  - destruct (find_slot u.1 0 d) as [j|] eqn:Hu.
    + rewrite (find_slot_keys _ _ _ d) by apply alter_keys.
      destruct (find_slot g 0 d) as [i|] eqn:Hf; [|done].
      rewrite list_lookup_alter_ne; [done|]. intros ->.
      apply find_slot_Some in Hf as (k & s & Hk & Hkg).
      apply find_slot_Some in Hu as (k' & s' & Hk' & Hku).
      rewrite Hk in Hk'. injection Hk' as <- _.
      rewrite key_match_sym in Hkg.
      by rewrite (key_match_trans _ _ _ Hkg Hku) in Hg.
    + rewrite find_slot_app, find_slot_cons.
      destruct (find_slot g 0 d) as [i|] eqn:Hf.
      * apply find_slot_Some in Hf as (k & s & Hk & _).
        by rewrite (lookup_app_l_Some _ _ _ _ Hk), Hk.
      * by rewrite key_match_sym, Hg.
Qed.

(** The stats after the values [vs] have been added to [s]. *)
Lemma foldl_bump_eq vs s :
  foldl (λ s x, bump x s) s vs =
  {| count := count s + Z.of_nat (length vs);
     sentiment_sum := foldl PrimFloat.add (sentiment_sum s) vs |}.
Proof.
  revert s. induction vs as [|v vs IH]; intros [c x]; cbn -[Z.of_nat].
  - f_equal. lia.
  - rewrite IH. cbn -[Z.of_nat]. f_equal. lia.
Qed.

Lemma lookup_stats_foldl d g us :
  lookup_stats (foldl apply_update d us) g =
  match values_for g us with
  | [] => lookup_stats d g
  | vs => Some (foldl (λ s x, bump x s) (default default_stats (lookup_stats d g)) vs)
  end.
Proof.
  revert d. induction us as [|u us IH]; intros d; [done|].
  cbn -[apply_update]. rewrite IH, lookup_stats_apply.
  unfold values_for. cbn [omap list_omap].
  destruct (key_match g u.1); cbn; [|done].
  by destruct (omap _ us).
Qed.

(** After a step every entry is where it was, with its key, and its stats
    are as before or bumped once. *)
Lemma apply_update_lookup d u i k s :
  d !! i = Some (k, s) →
  ∃ s', apply_update d u !! i = Some (k, s') ∧ (s' = s ∨ s' = bump u.2 s).
Proof.
  intros Hi. unfold apply_update. destruct (find_slot u.1 0 d) as [j|].
  - rewrite list_lookup_alter. case_decide; subst; rewrite Hi; cbn; eauto.
  - rewrite (lookup_app_l_Some _ _ _ _ Hi). eauto.
Qed.

Lemma apply_update_length d u : (length d ≤ length (apply_update d u))%nat.
Proof.
  unfold apply_update. destruct (find_slot u.1 0 d).
  - by rewrite length_alter.
  - rewrite length_app. lia.
Qed.

Lemma apply_update_counts d u :
  Forall (λ e, 1 ≤ count e.2) d → Forall (λ e, 1 ≤ count e.2) (apply_update d u).
Proof.
  intros Hd. apply Forall_lookup. intros i [k s'] Hi.
  unfold apply_update in Hi. destruct (find_slot u.1 0 d) as [j|].
  - rewrite list_lookup_alter in Hi. case_decide; subst.
    + destruct (d !! i) as [[k0 s0]|] eqn:Hk; [|done].
      cbn in Hi. injection Hi as _ <-. cbn.
      pose proof (proj1 (Forall_lookup _ _) Hd _ _ Hk). cbn in *. lia.
    + by apply (proj1 (Forall_lookup _ _) Hd _ _ Hi).
  - apply lookup_app_Some in Hi as [Hi|[_ Hi]].
    + by apply (proj1 (Forall_lookup _ _) Hd _ _ Hi).
    + destruct (i - length d)%nat; [|done]. cbn in Hi. by injection Hi as _ <-.
Qed.

(** ** The chart of a dict with one entry per class *)

Lemma collect_inr {A} (l : list (exn + A)) xs : collect l = inr xs → l = inr <$> xs.
Proof.
  revert xs. induction l as [|[e|x] l IH]; intros xs; cbn; [by intros [= <-]|done|].
  destruct (collect l); [done|]. intros [= <-]. cbn. f_equal. by apply IH.
Qed.

Lemma collect_inl {A} (l : list (exn + A)) e : collect l = inl e → inl e ∈ l.
Proof.
  induction l as [|[e'|x] l IH]; cbn; [done|intros [= <-]; left|].
  destruct (collect l); [|done]. intros [= <-]. right. by apply IH.
Qed.

Lemma entry_of_own d i k s : own_slots d → d !! i = Some (k, s) → entry_of d k = s.
Proof.
  intros Hd Hi. unfold entry_of, stats_at. by rewrite (Hd _ _ _ Hi), Hi.
Qed.

Lemma fmap_entry_of {A} (F : stats → A) d :
  own_slots d → (λ a, F (entry_of d a)) <$> d.*1 = (λ e, F e.2) <$> d.
Proof.
  intros Hd. apply list_eq. intros i. rewrite !list_lookup_fmap.
  destruct (d !! i) as [[k s]|] eqn:Hi; [|done]. cbn.
  by rewrite (entry_of_own _ _ _ _ Hd Hi).
Qed.

Lemma rendered_eq w : rendered w = chart_of (author_stats w).
Proof. unfold rendered. rewrite update_chart_eq. by destruct (chart_of _) as [e|[]]. Qed.

(** The chart drawn has, for every entry, a bar of height
    [bar_height] annotated with the entry's count. *)
Lemma chart_of_lookup d c i k s :
  own_slots d → chart_of d = inr c → d !! i = Some (k, s) →
  ∃ avg, bar_height s = inr avg ∧ bars c !! i = Some (k, avg)
         ∧ annotations c !! i = Some (count s).
Proof.
  intros Hd Hc Hi. unfold chart_of in Hc.
  rewrite !fmap_entry_of in Hc by done.
  destruct (collect _) as [e|avgs] eqn:Havgs; [done|]. injection Hc as <-.
  apply collect_inr in Havgs.
  assert (((λ e, bar_height e.2) <$> d) !! i = Some (bar_height s)) as Hb.
  { by rewrite list_lookup_fmap, Hi. }
  rewrite Havgs, list_lookup_fmap in Hb.
  destruct (avgs !! i) as [avg|] eqn:Ha; [|done]. injection Hb as Hb.
  exists avg. split; [done|]. cbn. split.
  - rewrite lookup_zip_with, list_lookup_fmap, Hi, Ha. done.
  - rewrite list_lookup_fmap, lookup_zip_with, lookup_zip_with.
    rewrite !list_lookup_fmap, Hi, Ha. done.
Qed.

(** The drawing raises only when the division of some entry does. *)
Lemma chart_of_raises d e :
  own_slots d → chart_of d = inl e →
  ∃ k s, (k, s) ∈ d ∧ bar_height s = inl e.
Proof.
  intros Hd Hc. unfold chart_of in Hc. rewrite fmap_entry_of in Hc by done.
  destruct (collect _) as [e'|avgs] eqn:Havgs; [|done]. injection Hc as ->.
  apply collect_inl, list_elem_of_fmap in Havgs as ([k s] & Hs & Hin). eauto.
Qed.

(** ** The file and the loop *)

Lemma length_append s t :
  String.length (s ++ t) = (String.length s + String.length t)%nat.
Proof. induction s as [|c s IH]; [done|]. simpl. by f_equal. Qed.

Lemma drop_chars_app n s t :
  (n ≤ String.length s)%nat → drop_chars n (s ++ t)%string = (drop_chars n s ++ t)%string.
Proof.
  revert s. induction n as [|n IH]; intros [|c s]; cbn; try done; try lia.
  intros H. apply IH. lia.
Qed.

Lemma drop_chars_add n m s : drop_chars (n + m) s = drop_chars m (drop_chars n s).
Proof.
  revert s. induction n as [|n IH]; intros [|c s]; cbn; try done.
  by destruct m.
Qed.

Lemma drop_chars_all s : drop_chars (String.length s) s = EmptyString.
Proof. induction s; cbn; done. Qed.

Lemma length_drop_chars n s :
  String.length (drop_chars n s) = (String.length s - n)%nat.
Proof. revert s. induction n as [|n IH]; intros [|c s]; cbn; try done; lia. Qed.

Lemma length_take_line s : (String.length (take_line s) ≤ String.length s)%nat.
Proof.
  induction s as [|c s IH]; simpl; [done|].
  destruct (Ascii.eqb c newline); simpl; lia.
Qed.

Lemma valid_seek_end f : valid (seek_end f).
Proof. unfold valid. cbn. done. Qed.

Lemma unread_seek_end f : unread (seek_end f) = EmptyString.
Proof. unfold unread. cbn. apply drop_chars_all. Qed.

Lemma valid_append chunk f : valid f → valid (append chunk f).
Proof. unfold valid. cbn. rewrite length_append. lia. Qed.

Lemma unread_append chunk f :
  valid f → unread (append chunk f) = (unread f ++ chunk)%string.
Proof. intros H. unfold unread. cbn. by apply drop_chars_app. Qed.

(** [readline] returns the first line of the unread text and moves the
    cursor past it. *)
Lemma readline_unread f :
  (readline f).1 = take_line (unread f) ∧
  unread (readline f).2 = drop_chars (String.length (take_line (unread f))) (unread f).
Proof. unfold readline, unread. cbn. by rewrite drop_chars_add. Qed.

Lemma valid_readline f : valid f → valid (readline f).2.
Proof.
  unfold valid, readline. cbn. intros H.
  pose proof (length_take_line (drop_chars (pos f) (content f))) as Hl.
  rewrite length_drop_chars in Hl. lia.
Qed.

Lemma next_line_eq f :
  next_line f =
  (if str_bool (py_strip (readline f).1) then Line (readline f).1 else NoDataYet,
   (readline f).2).
Proof. unfold next_line. by destruct (readline f). Qed.

(** One turn of the loop: the event read, then the message processed or a
    sleep; no exception leaves [process_message]. *)
Lemma tail_loop_step chunk script f evs w :
  tail_loop (Appended chunk :: script) f evs w =
  tail_loop script (next_line (append chunk f)).2
    (evs ++ [(next_line (append chunk f)).1])
    match (next_line (append chunk f)).1 with
    | Line line => exec (process_message line) w
    | NoDataYet => emit (Sleep 0.5) w
    end.
Proof.
  cbn [tail_loop]. destruct (next_line (append chunk f)) as [[line|] f']; cbn [fst snd].
  - unfold exec. by rewrite process_message_eq.
  - done.
Qed.

Lemma appends_cons c cs : appends (c :: cs) = Appended c :: appends cs.
Proof. done. Qed.

Lemma tail_loop_app chunks script f evs w :
  tail_loop (appends chunks ++ script) f evs w =
  let '(_, f', evs', w') := tail_loop (appends chunks) f evs w in
  tail_loop script f' evs' w'.
Proof.
  revert f evs w. induction chunks as [|c cs IH]; intros f evs w; [done|].
  rewrite appends_cons. cbn [app]. rewrite !tail_loop_step. apply IH.
Qed.

Lemma tail_loop_appends chunks f evs w :
  ∃ f' new w', tail_loop (appends chunks) f evs w = (StillTailing, f', evs ++ new, w')
    ∧ length new = length chunks
    ∧ author_stats w' = author_stats (process_all (lines_of new) w)
    ∧ ∃ tr, trace w' = trace w ++ tr.
Proof.
  revert f evs w. induction chunks as [|c cs IH]; intros f evs w.
  { exists f, [], w. rewrite app_nil_r. repeat split. exists []. by rewrite app_nil_r. }
  rewrite appends_cons, tail_loop_step.
  destruct (IH (next_line (append c f)).2 (evs ++ [(next_line (append c f)).1])
              match (next_line (append c f)).1 with
              | Line line => exec (process_message line) w
              | NoDataYet => emit (Sleep 0.5) w
              end) as (f' & new & w' & -> & Hlen & Hs & tr & Htr).
  exists f', ((next_line (append c f)).1 :: new), w'.
  rewrite <- app_assoc. cbn [app length]. repeat split; [by rewrite Hlen| |].
  - rewrite Hs. destruct (next_line (append c f)).1; [done|]. cbn [lines_of omap list_omap].
    by rewrite !process_all_stats.
  - destruct (next_line (append c f)).1 as [line|].
    + unfold exec in Htr. rewrite process_message_eq in Htr. cbn [snd] in Htr.
      destruct (parse_update line) as [err|[[author k] x]].
      * exists (LogError err :: tr). rewrite Htr. cbn. by rewrite <- app_assoc.
      * cbn zeta in Htr. destruct (chart_of _).
        -- eexists. rewrite Htr. cbn. rewrite <- !app_assoc. done.
        -- eexists. rewrite Htr. cbn. rewrite <- !app_assoc. done.
    + eexists. rewrite Htr. cbn. by rewrite <- app_assoc.
Qed.

(** Two handles with the same unread text see the same events. *)
Lemma tail_loop_unread script f1 f2 evs w :
  valid f1 → valid f2 → unread f1 = unread f2 →
  let '(e1, g1, evs1, w1) := tail_loop script f1 evs w in
  let '(e2, g2, evs2, w2) := tail_loop script f2 evs w in
  e1 = e2 ∧ evs1 = evs2 ∧ w1 = w2 ∧ unread g1 = unread g2.
Proof.
  revert f1 f2 evs w. induction script as [|[chunk|] script IH]; intros f1 f2 evs w V1 V2 Hu.
  - done.
  - rewrite !tail_loop_step.
    assert ((next_line (append chunk f1)).1 = (next_line (append chunk f2)).1) as He.
    { rewrite !next_line_eq. cbn [fst].
      rewrite !(proj1 (readline_unread _)), !unread_append, Hu by done. done. }
    rewrite He. apply IH.
    + rewrite next_line_eq. by apply valid_readline, valid_append.
    + rewrite next_line_eq. by apply valid_readline, valid_append.
    + rewrite !next_line_eq. cbn [snd].
      rewrite !(proj2 (readline_unread _)), !unread_append, Hu by done. done.
  - done.
Qed.

(** The loop ends on an interrupt or is still tailing; the events it adds
    are at most one per tick, and [author_stats] is what processing the lines
    read makes of it. *)
Lemma tail_loop_run script f evs w :
  ∃ e f' new w',
    tail_loop script f evs w = (e, f', evs ++ new, w')
    ∧ (e = Interrupted ∨ e = StillTailing)
    ∧ (length new ≤ length script)%nat
    ∧ author_stats w' = author_stats (process_all (lines_of new) w).
Proof.
  revert f evs w. induction script as [|[chunk|] script IH]; intros f evs w.
  - exists StillTailing, f, [], w. rewrite app_nil_r. eauto.
  - rewrite tail_loop_step.
    destruct (IH (next_line (append chunk f)).2
                (evs ++ [(next_line (append chunk f)).1])
                match (next_line (append chunk f)).1 with
                | Line line => exec (process_message line) w
                | NoDataYet => emit (Sleep 0.5) w
                end) as (e & f' & new & w' & -> & He & Hlen & Hs).
    exists e, f', ((next_line (append chunk f)).1 :: new), w'.
    rewrite <- app_assoc. cbn [app length]. repeat split; [done|lia|].
    rewrite Hs. destruct (next_line (append chunk f)).1; [done|].
    cbn [lines_of omap list_omap]. by rewrite !process_all_stats.
  - exists Interrupted, f, [], w. rewrite app_nil_r. cbn. eauto with lia.
Qed.

(** [author_stats] at the end of a run of [main] is what the lines it read
    make of the empty dict. *)
Lemma main_stats text script :
  author_stats (final (main (Some text) script)) =
  author_stats (process_all (lines_of (events (main (Some text) script))) initial_world).
Proof.
  unfold main. cbv zeta.
  destruct (tail_loop_run script (seek_end (open_file text)) []
              (emit (Print "Consumer ready. Waiting for new messages...")
                 (emit (LogInfo StartConsumer) initial_world)))
    as (e & f' & new & w' & -> & [->| ->] & _ & Hs); cbn [app final events];
    cbn [finally emit author_stats]; by rewrite Hs, !process_all_stats.
Qed.

(** With nothing unread and nothing appended, a turn of the loop gets
    [NoDataYet] and the cursor stays at the end. *)
Lemma next_line_idle f :
  valid f → unread f = EmptyString →
  (next_line (append EmptyString f)).1 = NoDataYet
  ∧ valid (next_line (append EmptyString f)).2
  ∧ unread (next_line (append EmptyString f)).2 = EmptyString.
Proof.
  intros V Hu. rewrite next_line_eq. cbn [fst snd].
  rewrite (proj1 (readline_unread _)), (proj2 (readline_unread _)).
  rewrite unread_append, Hu by done. repeat split.
  by apply valid_readline, valid_append.
Qed.

Lemma tail_loop_idle n f evs w :
  valid f → unread f = EmptyString →
  (tail_loop (appends (replicate n EmptyString)) f evs w).1.2 =
  evs ++ replicate n NoDataYet.
Proof.
  revert f evs w. induction n as [|n IH]; intros f evs w V Hu.
  { cbn. by rewrite app_nil_r. }
  cbn [replicate]. rewrite appends_cons, tail_loop_step.
  destruct (next_line_idle f V Hu) as (-> & V' & Hu').
  rewrite IH by done. by rewrite <- app_assoc.
Qed.

(** A text without newline is read whole; with a newline at its end, and no
    other, too. *)
Lemma take_line_no_newline s : occurs newline s = false → take_line s = s.
Proof.
  induction s as [|c s IH]; [done|]. simpl. intros [Hc Hs]%orb_false_elim.
  rewrite Hc. f_equal. by apply IH.
Qed.

Lemma take_line_newline s :
  occurs newline s = false → take_line (s ++ nl) = (s ++ nl)%string.
Proof.
  induction s as [|c s IH]; [done|]. intros [Hc Hs]%orb_false_elim.
  change (take_line (String c (s ++ nl)) = String c (s ++ nl)).
  simpl. rewrite Hc. f_equal. by apply IH.
Qed.

(** ** The library models on sample inputs *)

Example json_loads_samples :
  json_loads (dq "{}") = inr (PDict [])
  ∧ json_loads "not json" = inl JSONDecodeError
  ∧ json_loads "[1,2,3]" = inr (PList [PInt 1; PInt 2; PInt 3])
  ∧ json_loads (dq "{'sentiment':'bad'}") = inr (PDict [("sentiment", PStr "bad")])
  ∧ json_loads msg_alice_08
    = inr (PDict [("author", PStr "alice"); ("sentiment", PFloat 0.8)])
  ∧ json_loads (dq " { 'a' : [ true , null, -0.0, 1e2 ], 'a' : {} } ")
    = inr (PDict [("a", PDict [])])
  ∧ json_loads (dq "['é', NaN, -Infinity, 12345678901234567890]")
    = inr (PList [PStr (String (chr 195) (String (chr 169) EmptyString));
                  PFloat nan; PFloat neg_infinity; PInt 12345678901234567890])
  ∧ json_loads "01" = inl JSONDecodeError
  ∧ json_loads "[1,]" = inl JSONDecodeError
  ∧ json_loads (dq "{'a':1} x") = inl JSONDecodeError.
Proof. vm_compute. repeat split. Qed.

Example py_float_samples :
  py_float (PStr " 1_000.5e-3 ") = inr 1.0005%float
  ∧ py_float (PStr "-inf") = inr neg_infinity
  ∧ py_float (PStr "bad") = inl ValueError
  ∧ py_float (PStr "1e") = inl ValueError
  ∧ py_float (PStr "") = inl ValueError
  ∧ py_float (PBool true) = inr 1%float
  ∧ py_float (PInt 9007199254740993) = inr 9007199254740992%float
  ∧ py_float (PInt (2 ^ 1024)) = inl OverflowError
  ∧ py_float PNone = inl TypeError
  ∧ py_float (PList []) = inl TypeError.
Proof. vm_compute. repeat split. Qed.

Example key_match_samples :
  key_match (KInt 1) (KFloat 1) = true
  ∧ key_match (KBool true) (KInt 1) = true
  ∧ key_match (KFloat (-0)) (KInt 0) = true
  ∧ key_match (KFloat 9007199254740992) (KInt 9007199254740992) = true
  ∧ key_match (KFloat 9007199254740992) (KInt 9007199254740993) = false
  ∧ key_match (KFloat 0.5) (KInt 0) = false
  ∧ key_match (KFloat nan) (KFloat nan) = true
  ∧ key_match (KStr "1") (KInt 1) = false
  ∧ key_match KNone (KInt 0) = false.
Proof. vm_compute. repeat split. Qed.

(** ** The claims *)

(** C8 (end-to-end scenario). Feeding the three messages of the scenario
    leaves alice with count 2 and bob with count 1; the chart drawn shows
    the average 0.7 for alice and 0.2 for bob, as binary64 floats. The same
    holds when the messages arrive as lines of the tailed file. *)
Theorem end_to_end_scenario :
  let w := process_all scenario initial_world in
  author_stats w
  = [(KStr "alice", {| count := 2; sentiment_sum := 1.4 |});
     (KStr "bob", {| count := 1; sentiment_sum := 0.2 |})]
  ∧ rendered w
    = inr {| bars := [(KStr "alice", 0.7%float); (KStr "bob", 0.2%float)];
             annotations := [2; 1] |}
  ∧ ax w = {| bars := [(KStr "alice", 0.7%float); (KStr "bob", 0.2%float)];
              annotations := [2; 1] |}
  ∧ py_truediv 1.4 2 = inr 0.7%float
  ∧ py_truediv 0.2 1 = inr 0.2%float
  ∧ final (main (Some EmptyString) (appends ((λ m, m ++ nl)%string <$> scenario)))
    = process_all scenario
        (emit (Print "Consumer ready. Waiting for new messages...")
           (emit (LogInfo StartConsumer) initial_world)).
Proof. vm_compute. repeat split. Qed.

Lemma values_for_nonempty g us :
  values_for g us ≠ [] ↔ ∃ u, u ∈ us ∧ key_match g u.1 = true.
Proof.
  unfold values_for. induction us as [|u us IH]; cbn [omap list_omap].
  - split; [done|]. intros (u & Hu & _). inversion Hu.
  - destruct (key_match g u.1) eqn:Hg; cbn.
    + split; [|done]. intros _. exists u. split; [left|done].
    + rewrite IH. split.
      * intros (u' & Hu' & Hm). exists u'. split; [by right|done].
      * intros (u' & Hu' & Hm). apply elem_of_cons in Hu' as [->|Hu'].
        -- by rewrite Hm in Hg.
        -- eauto.
Qed.

Lemma reachable_own_slots messages :
  own_slots (author_stats (process_all messages initial_world)).
Proof. rewrite process_all_stats. apply own_slots_foldl, own_slots_nil. Qed.

(** The stats kept under a key after a sequence of messages: those of the
    values of the accepted updates of its class, if there are any. *)
Lemma reachable_lookup_stats messages g :
  lookup_stats (author_stats (process_all messages initial_world)) g =
  match values_for g (accepted_updates messages) with
  | [] => None
  | vs => Some {| count := Z.of_nat (length vs);
                  sentiment_sum := foldl PrimFloat.add 0%float vs |}
  end.
Proof.
  rewrite process_all_stats, lookup_stats_foldl. cbn [initial_world author_stats].
  destruct (values_for g (accepted_updates messages)) as [|v vs]; [done|].
  change (lookup_stats [] g) with (@None stats). cbn [default from_option id].
  by rewrite foldl_bump_eq.
Qed.

(** C1 (additivity). Whatever the messages processed since the start, if the
    accepted updates that go to the group of [g] carry the values [v :: vs]
    (so N = 1 + length vs of them), then the stats kept for the group have
    count N and, as sum, the float sum 0.0 + v1 + ... + vN taken from left to
    right. [update_chart] then derives for the group's bar the average
    [sum / count] (Python's division of a float by an int); it fails to draw
    only when that division raises for some group. *)
Theorem additivity (messages : list string) (g : pykey) (v : float) (vs : list float) :
  values_for g (accepted_updates messages) = v :: vs →
  let w := process_all messages initial_world in
  let s := {| count := Z.of_nat (length (v :: vs));
              sentiment_sum := foldl PrimFloat.add 0%float (v :: vs) |} in
  lookup_stats (author_stats w) g = Some s
  ∧ match rendered w with
    | inr c =>
        ∃ i k avg,
          author_stats w !! i = Some (k, s) ∧ key_match k g = true
          ∧ py_truediv (sentiment_sum s) (count s) = inr avg
          ∧ bars c !! i = Some (k, avg)
          ∧ annotations c !! i = Some (count s)
    | inl e =>
        ∃ k' s', (k', s') ∈ author_stats w
          ∧ py_truediv (sentiment_sum s') (count s') = inl e
    end.
Proof.
  intros Hvs w s.
  assert (lookup_stats (author_stats w) g = Some s) as Hl.
  { unfold w. by rewrite reachable_lookup_stats, Hvs. }
  split; [done|].
  pose proof (reachable_own_slots messages) as Hown. fold w in Hown.
  rewrite rendered_eq. destruct (chart_of (author_stats w)) as [e|c] eqn:Hc.
  - destruct (chart_of_raises _ _ Hown Hc) as (k' & s' & Hin & Hb).
    exists k', s'. split; [done|]. unfold bar_height in Hb.
    by destruct (count s' =? 0).
  - unfold lookup_stats in Hl.
    destruct (find_slot g 0 (author_stats w)) as [i|] eqn:Hf; [|done].
    destruct (find_slot_Some _ _ _ Hf) as (k & s0 & Hi & Hk).
    rewrite Hi in Hl. injection Hl as ->.
    destruct (chart_of_lookup _ _ _ _ _ Hown Hc Hi) as (avg & Hb & Hbar & Hann).
    exists i, k, avg. repeat split; done.
Qed.

Lemma additivity_witness :
  lookup_stats (author_stats (process_all scenario initial_world)) (KStr "alice")
  = Some {| count := Z.of_nat (length [0.8%float; 0.6%float]);
            sentiment_sum := foldl PrimFloat.add 0%float [0.8%float; 0.6%float] |}.
Proof.
  pose proof (additivity scenario (KStr "alice") 0.8%float [0.6%float]
                ltac:(vm_compute; reflexivity)) as H.
  cbv zeta in H. destruct H as [H _]. exact H.
Defined.

(** C9 (rendering is a frame). In every world, [update_chart] leaves
    [author_stats] as it was, and a second call right after the first
    returns the same result and draws the same chart (the same authors,
    averages and counts). *)
Theorem update_chart_frame (w : world) :
  author_stats (exec update_chart w) = author_stats w
  ∧ (update_chart (exec update_chart w)).1 = (update_chart w).1
  ∧ rendered (exec update_chart w) = rendered w
  ∧ ax (exec update_chart (exec update_chart w)) = ax (exec update_chart w).
Proof.
  assert (author_stats (exec update_chart w) = author_stats w) as Hs.
  { unfold exec. rewrite update_chart_eq. by destruct (chart_of _). }
  split; [done|]. rewrite !rendered_eq, Hs. split; [|split; [done|]].
  - rewrite (update_chart_eq (exec update_chart w)), Hs, (update_chart_eq w).
    by destruct (chart_of (author_stats w)).
  - unfold exec at 1. rewrite (update_chart_eq (exec update_chart w)), Hs.
    unfold exec. rewrite (update_chart_eq w).
    by destruct (chart_of (author_stats w)).
Qed.

(** C10 (a rejected message changes nothing). When the message fails to
    decode, or decodes to something that is not an object, or holds a
    sentiment that [float] refuses, [process_message] only logs an error:
    [author_stats] (and the chart) are as before. *)
Theorem rejected_message_frame (message : string) (w : world) :
  (∃ e, json_loads message = inl e)
  ∨ (∃ v, json_loads message = inr v ∧ ∀ pairs, v ≠ PDict pairs)
  ∨ (∃ pairs e, json_loads message = inr (PDict pairs)
       ∧ py_float (dict_get pairs "sentiment" (PFloat 0.5)) = inl e) →
  author_stats (exec (process_message message) w) = author_stats w
  ∧ ax (exec (process_message message) w) = ax w
  ∧ ∃ err, parse_update message = inl err
      ∧ exec (process_message message) w = emit (LogError err) w.
Proof.
  intros H.
  assert (∃ err, parse_update message = inl err) as [err Herr].
  { unfold parse_update.
    destruct H as [[e ->]|[(v & -> & Hv)|(pairs & e & -> & ->)]]; eauto.
    destruct v; eauto. by destruct (Hv pairs). }
  unfold exec. rewrite process_message_eq, Herr. cbn. eauto.
Qed.

Lemma rejected_message_frame_witness :
  author_stats (exec (process_message "not json") initial_world)
  = author_stats initial_world.
Proof.
  pose proof (rejected_message_frame "not json" initial_world) as H.
  destruct H as [H _]; [|exact H].
  left. exists JSONDecodeError. vm_compute. reflexivity.
Defined.

(** C3, as the specification states it, fails: an author that is present
    and not a string is kept as the group, here the number 5. *)
Lemma non_string_author_counterexample :
  json_loads (dq "{'author': 5}") = inr (PDict [("author", PInt 5)])
  ∧ parse_update (dq "{'author': 5}") = inr (PInt 5, KInt 5, 0.5%float)
  ∧ exec (process_message (dq "{'author': 5}")) initial_world
    = {| author_stats := [(KInt 5, {| count := 1; sentiment_sum := 0.5 |})];
         ax := {| bars := [(KInt 5, 0.5%float)]; annotations := [1] |};
         trace := [LogInfo (Processed (PInt 5) 0.5); Draw] |}
  ∧ PInt 5 ≠ PStr "unknown".
Proof. vm_compute. repeat split. discriminate. Qed.

(** C3, amended. For a message that decodes to an object and is accepted as
    the update [(author, x)]: the author is the string ["unknown"] when the
    object has no ["author"] key; it is the value of that key, of whatever
    type, when it has one; and [x] is 0.5 when the object has no
    ["sentiment"] key. The update goes to the entry of the author's key. With
    neither key the message is accepted; so is [{}]. *)
Theorem author_and_sentiment_defaults (message : string)
    (pairs : list (string * pyval)) (author : pyval) (k : pykey) (x : float)
    (w : world) :
  json_loads message = inr (PDict pairs) →
  parse_update message = inr (author, k, x) →
  (dict_getitem pairs "author" = None → author = PStr "unknown" ∧ k = KStr "unknown")
  ∧ (∀ v, dict_getitem pairs "author" = Some v → author = v)
  ∧ (dict_getitem pairs "sentiment" = None → x = 0.5%float)
  ∧ key_val k = author
  ∧ author_stats (exec (process_message message) w)
    = apply_update (author_stats w) (k, x)
  ∧ (∀ message' pairs',
       json_loads message' = inr (PDict pairs') →
       dict_getitem pairs' "author" = None →
       dict_getitem pairs' "sentiment" = None →
       parse_update message' = inr (PStr "unknown", KStr "unknown", 0.5%float))
  ∧ parse_update (dq "{}") = inr (PStr "unknown", KStr "unknown", 0.5%float).
Proof.
  intros Hj Hp. pose proof Hp as Hp'. unfold parse_update in Hp. rewrite Hj in Hp.
  unfold dict_get in Hp.
  destruct (py_float _) as [e|x'] eqn:Hx; [done|].
  destruct (as_key _) as [e|k'] eqn:Hk; [done|].
  injection Hp as <- <- <-.
  split; [|split; [|split; [|split; [|split; [|split]]]]].
  - intros Ha. rewrite Ha in Hk |- *. cbn in Hk |- *. by injection Hk as <-.
  - intros v Ha. by rewrite Ha.
  - intros Hs. rewrite Hs in Hx. cbn in Hx. by injection Hx as <-.
  - revert Hk. generalize (default (PStr "unknown") (dict_getitem pairs "author")).
    intros [] [=]; by subst.
  - by rewrite process_message_stats, Hp'.
  - intros m' p' Hj' Ha Hs. unfold parse_update, dict_get. by rewrite Hj', Ha, Hs.
  - by vm_compute.
Qed.

Lemma author_and_sentiment_defaults_witness :
  author_stats (exec (process_message (dq "{'sentiment': 0.25}")) initial_world)
  = apply_update (author_stats initial_world) (KStr "unknown", 0.25%float).
Proof.
  pose proof (author_and_sentiment_defaults (dq "{'sentiment': 0.25}")
                [("sentiment", PFloat 0.25)] (PStr "unknown") (KStr "unknown")
                0.25%float initial_world
                ltac:(vm_compute; reflexivity) ltac:(vm_compute; reflexivity)) as H.
  destruct H as (_ & _ & _ & _ & H & _). exact H.
Defined.

(** C4, as the specification states it, fails: a line that is not JSON is not
    reported with the diagnostic of a non-object (the one that names the
    decoded type); it is reported by the generic handler, as a sentiment that
    [float] refuses is. *)
Lemma decode_failure_counterexample :
  trace (exec (process_message "not json") initial_world)
  = [LogError (ErrorProcessing JSONDecodeError)]
  ∧ trace (exec (process_message "[1,2,3]") initial_world)
    = [LogError (ExpectedDict "list")]
  ∧ trace (exec (process_message (dq "{'sentiment':'bad'}")) initial_world)
    = [LogError (ErrorProcessing ValueError)]
  ∧ LogError (ErrorProcessing JSONDecodeError) ≠ LogError (ExpectedDict "list").
Proof. vm_compute. repeat split. discriminate. Qed.

(** C4, amended. A message that decodes to a value that is not an object is
    reported as [ExpectedDict] with the type of the value. A message that
    fails to decode, and an object whose sentiment [float] refuses, are both
    reported by the generic handler as [ErrorProcessing] with the exception
    raised ([JSONDecodeError]; [ValueError] or [TypeError]). In each case
    nothing else happens. *)
Theorem rejection_diagnostics (message : string) (w : world) :
  (∀ e, json_loads message = inl e →
     exec (process_message message) w = emit (LogError (ErrorProcessing e)) w)
  ∧ (∀ v, json_loads message = inr v → (∀ pairs, v ≠ PDict pairs) →
       exec (process_message message) w
       = emit (LogError (ExpectedDict (py_type v))) w)
  ∧ (∀ pairs e, json_loads message = inr (PDict pairs) →
       py_float (dict_get pairs "sentiment" (PFloat 0.5)) = inl e →
       exec (process_message message) w = emit (LogError (ErrorProcessing e)) w)
  ∧ exec (process_message "not json") w
    = emit (LogError (ErrorProcessing JSONDecodeError)) w
  ∧ exec (process_message "[1,2,3]") w = emit (LogError (ExpectedDict "list")) w
  ∧ exec (process_message (dq "{'sentiment':'bad'}")) w
    = emit (LogError (ErrorProcessing ValueError)) w.
Proof.
  assert (∀ m err, parse_update m = inl err →
            exec (process_message m) w = emit (LogError err) w) as Hrej.
  { intros m err Hm. unfold exec. by rewrite process_message_eq, Hm. }
  split; [|split; [|split; [|split; [|split]]]].
  - intros e He. apply Hrej. unfold parse_update. by rewrite He.
  - intros v Hv Hnd. apply Hrej. unfold parse_update. rewrite Hv.
    destruct v; try done. by destruct (Hnd pairs).
  - intros pairs e Hj Hx. apply Hrej. unfold parse_update. by rewrite Hj, Hx.
  - apply Hrej. by vm_compute.
  - apply Hrej. by vm_compute.
  - apply Hrej. by vm_compute.
Qed.

Lemma foldl_apply_update_counts d us :
  Forall (λ e, 1 ≤ count e.2) d → Forall (λ e, 1 ≤ count e.2) (foldl apply_update d us).
Proof.
  revert d. induction us as [|u us IH]; intros d Hd; [done|].
  cbn -[apply_update]. by apply IH, apply_update_counts.
Qed.

(** C6 (the aggregate invariant). After any sequence of messages since the
    start: the keys of [author_stats] are the groups of the accepted updates,
    each by its first key and in order of first appearance; a key is found
    exactly when some accepted update went to its group; every count is at
    least 1; no two keys are of one group. A further message leaves every
    entry in its place under its key, with its stats as they were or with
    one more message counted; at the end of a run of [main] the dict is the
    one made by the lines read. *)
Theorem aggregate_invariant (messages : list string) :
  let d := author_stats (process_all messages initial_world) in
  d.*1 = groups_seen (accepted_updates messages).*1
  ∧ (∀ g, is_Some (lookup_stats d g)
          ↔ ∃ u, u ∈ accepted_updates messages ∧ key_match g u.1 = true)
  ∧ Forall (λ e, 1 ≤ count e.2) d
  ∧ own_slots d
  ∧ (∀ message i k s,
       d !! i = Some (k, s) →
       ∃ s', author_stats (exec (process_message message)
                             (process_all messages initial_world)) !! i
             = Some (k, s')
           ∧ (s' = s
              ∨ ∃ x, count s' = count s + 1
                     ∧ sentiment_sum s' = (sentiment_sum s + x)%float))
  ∧ (∀ message,
       (length d ≤ length (author_stats (exec (process_message message)
                                           (process_all messages initial_world))))%nat)
  ∧ (∀ text script,
       author_stats (final (main (Some text) script))
       = author_stats
           (process_all (lines_of (events (main (Some text) script))) initial_world)).
Proof.
  intros d. split; [|split; [|split; [|split; [|split; [|split]]]]].
  - unfold d. rewrite process_all_stats. apply foldl_apply_update_keys.
  - intros g. unfold d. rewrite reachable_lookup_stats. split.
    + intros Hs. apply values_for_nonempty. intros Hv. rewrite Hv in Hs.
      by destruct Hs.
    + intros Hu%values_for_nonempty.
      destruct (values_for g (accepted_updates messages)); [done|eauto].
  - unfold d. rewrite process_all_stats. by apply foldl_apply_update_counts.
  - apply reachable_own_slots.
  - intros message i k s Hi. rewrite process_message_stats.
    destruct (parse_update message) as [err|[[author k'] x]]; [eauto|].
    destruct (apply_update_lookup _ (k', x) _ _ _ Hi) as (s' & Hs' & [->| ->]); eauto.
    exists (bump x s). split; [done|]. right. exists x. done.
  - intros message. rewrite process_message_stats.
    destruct (parse_update message) as [err|[[author k'] x]]; [done|].
    apply apply_update_length.
  - apply main_stats.
Qed.

Lemma main_events text script :
  events (main (Some text) script) =
  (tail_loop script (seek_end (open_file text)) []
     (emit (Print "Consumer ready. Waiting for new messages...")
        (emit (LogInfo StartConsumer) initial_world))).1.2.
Proof.
  unfold main. cbv zeta. by destruct (tail_loop _ _ _ _) as [[[[] f] evs] w].
Qed.

(** C5 (tail isolation). [main] seeks to the end of the file before it reads:
    whatever the file held when it was opened, the run is the one over a file
    that was empty (the same events, the same final world, the same exit).
    With ["line1\n"] in the file at the start and ["line2\n"] appended, the
    loop gets one line, the text ["line2\n"] (["line2"] once stripped), and
    then nothing more, however long it goes on. *)
Theorem tail_isolation :
  (∀ pre script,
     events (main (Some pre) script) = events (main (Some EmptyString) script)
     ∧ final (main (Some pre) script) = final (main (Some EmptyString) script)
     ∧ result (main (Some pre) script) = result (main (Some EmptyString) script))
  ∧ (∀ n,
       events (main (Some ("line1" ++ nl)%string)
                 (Appended ("line2" ++ nl) :: appends (replicate n EmptyString)))
       = Line ("line2" ++ nl) :: replicate n NoDataYet)
  ∧ py_strip ("line2" ++ nl) = "line2".
Proof.
  assert (∀ pre script,
     events (main (Some pre) script) = events (main (Some EmptyString) script)
     ∧ final (main (Some pre) script) = final (main (Some EmptyString) script)
     ∧ result (main (Some pre) script) = result (main (Some EmptyString) script))
    as Hiso.
  { intros pre script. unfold main. cbv zeta.
    pose proof (tail_loop_unread script (seek_end (open_file pre))
                  (seek_end (open_file EmptyString)) []
                  (emit (Print "Consumer ready. Waiting for new messages...")
                     (emit (LogInfo StartConsumer) initial_world))
                  (valid_seek_end _) (valid_seek_end _)) as H.
    rewrite !unread_seek_end in H. specialize (H eq_refl).
    destruct (tail_loop script (seek_end (open_file pre)) _ _) as [[[e1 g1] evs1] w1].
    destruct (tail_loop script (seek_end (open_file EmptyString)) _ _)
      as [[[e2 g2] evs2] w2].
    destruct H as (-> & -> & -> & _). by destruct e2. }
  split; [done|]. split; [|by vm_compute].
  intros n. rewrite (proj1 (Hiso _ _)), main_events, tail_loop_step.
  set (f := seek_end (open_file EmptyString)).
  assert (next_line (append ("line2" ++ nl) f)
          = (Line ("line2" ++ nl), {| content := ("line2" ++ nl)%string; pos := 6 |}))
    as -> by (by vm_compute).
  cbn [fst snd]. rewrite tail_loop_idle; [done|by vm_compute|by vm_compute].
Qed.

(** C2, as the specification states it, fails: the head of a record written
    without its newline is read and processed at once, as a line of its own,
    and so is the tail when it arrives; both are rejected and the record is
    lost. Written in one piece the record is counted. *)
Lemma partial_line_counterexample :
  events (main (Some EmptyString) [Appended record_head; Appended record_tail])
  = [Line record_head; Line record_tail]
  ∧ final (main (Some EmptyString) [Appended record_head; Appended record_tail])
    = {| author_stats := [];
         ax := empty_chart;
         trace := [LogInfo StartConsumer;
                   Print "Consumer ready. Waiting for new messages...";
                   LogError (ErrorProcessing JSONDecodeError);
                   LogError (ErrorProcessing JSONDecodeError)] |}
  ∧ Line record_head ≠ NoDataYet
  ∧ author_stats
      (final (main (Some EmptyString) [Appended (record_head ++ record_tail)]))
    = [(KStr "a", {| count := 1; sentiment_sum := 0.9 |})].
Proof. vm_compute. repeat split. discriminate. Qed.

(** C2, amended. When the handle has read everything and the producer
    appends a fragment without newline, the next read returns the fragment
    as it stands and moves past it: it is [NoDataYet] only if the fragment
    is blank, and otherwise the fragment is a line of its own. When the rest
    of the line and its newline are appended later, the next read returns
    that rest alone, and nothing is left unread. *)
Theorem partial_line (f : file) (fragment rest : string) :
  valid f → unread f = EmptyString →
  occurs newline fragment = false → occurs newline rest = false →
  let r1 := next_line (append fragment f) in
  let r2 := next_line (append (rest ++ nl) r1.2) in
  r1.1 = (if str_bool (py_strip fragment) then Line fragment else NoDataYet)
  ∧ unread r1.2 = EmptyString
  ∧ r2.1 = (if str_bool (py_strip (rest ++ nl)) then Line (rest ++ nl) else NoDataYet)
  ∧ unread r2.2 = EmptyString
  ∧ (next_line (append EmptyString r2.2)).1 = NoDataYet.
Proof.
  intros V Hu Hfrag Hrest r1 r2.
  assert (V1 : valid r1.2).
  { unfold r1. rewrite next_line_eq. by apply valid_readline, valid_append. }
  assert (H1 : (readline (append fragment f)).1 = fragment).
  { rewrite (proj1 (readline_unread _)), unread_append, Hu by done.
    by apply take_line_no_newline. }
  assert (Hu1 : unread r1.2 = EmptyString).
  { unfold r1. rewrite next_line_eq. cbn [snd].
    rewrite (proj2 (readline_unread _)), unread_append, Hu by done.
    change (EmptyString ++ fragment)%string with fragment.
    rewrite take_line_no_newline by done. apply drop_chars_all. }
  assert (V2 : valid r2.2).
  { unfold r2. rewrite next_line_eq. by apply valid_readline, valid_append. }
  assert (H2 : (readline (append (rest ++ nl) r1.2)).1 = (rest ++ nl)%string).
  { rewrite (proj1 (readline_unread _)), unread_append, Hu1 by done.
    by apply take_line_newline. }
  assert (Hu2 : unread r2.2 = EmptyString).
  { unfold r2. rewrite next_line_eq. cbn [snd].
    rewrite (proj2 (readline_unread _)), unread_append, Hu1 by done.
    change (EmptyString ++ (rest ++ nl))%string with (rest ++ nl)%string.
    rewrite take_line_newline by done. apply drop_chars_all. }
  repeat split; try done.
  - unfold r1. rewrite next_line_eq. cbn [fst]. by rewrite H1.
  - unfold r2. rewrite next_line_eq. cbn [fst]. by rewrite H2.
  - by apply next_line_idle.
Qed.

Lemma partial_line_witness :
  (next_line (append record_head (seek_end (open_file EmptyString)))).1
  = (if str_bool (py_strip record_head) then Line record_head else NoDataYet).
Proof.
  pose proof (partial_line (seek_end (open_file EmptyString)) record_head
                (dq "ntiment':0.9}")
                (valid_seek_end _) (unread_seek_end _)
                ltac:(vm_compute; reflexivity) ltac:(vm_compute; reflexivity)) as H.
  cbv zeta in H. destruct H as [H _]. exact H.
Defined.

(** C7 (startup failure and cancellation). Without the data file [main]
    logs the error and exits with status 1: no turn of the loop, no file
    handle, no [finally] block. With the file, an interrupt that comes
    after any number of turns is caught: [main] logs it, runs the [finally]
    block ([plt.ioff()], [plt.show()], the closing log line) and the
    interpreter exits with status 0, after exactly the turns before the
    interrupt. *)
Theorem startup_and_cancellation :
  (∀ script,
     result (main None script) = Exit 1
     ∧ events (main None script) = []
     ∧ handle (main None script) = None
     ∧ trace (final (main None script))
       = [LogInfo StartConsumer; LogError DataFileMissing])
  ∧ (∀ text chunks rest,
       result (main (Some text) (appends chunks ++ CtrlC :: rest)) = Exit 0
       ∧ length (events (main (Some text) (appends chunks ++ CtrlC :: rest)))
         = length chunks
       ∧ ∃ tr, trace (final (main (Some text) (appends chunks ++ CtrlC :: rest)))
               = tr ++ [LogInfo StoppedByUser; Ioff; Show; LogInfo ConsumerClosed])
  ∧ Exit 1 ≠ Exit 0.
Proof.
  split; [done|]. split; [|done].
  intros text chunks rest. unfold main. cbv zeta. rewrite tail_loop_app.
  destruct (tail_loop_appends chunks (seek_end (open_file text)) []
              (emit (Print "Consumer ready. Waiting for new messages...")
                 (emit (LogInfo StartConsumer) initial_world)))
    as (f' & new & w' & -> & Hlen & _ & tr & Htr).
  cbn [tail_loop result events app final]. repeat split; [done|].
  exists (trace w'). cbn [finally emit trace]. by rewrite <- !app_assoc.
Qed.

(** ** Further properties of [process_message] *)

(** No exception leaves [process_message], whatever the message, and none
    is dropped: the first thing each message adds to the trace is its own log
    line, the "Processed" line of an accepted message or the error of a
    rejected one. *)
Theorem process_message_catches_all (message : string) (w : world) :
  (process_message message w).1 = inr tt
  ∧ ∃ tr,
      trace (exec (process_message message) w)
      = trace w
        ++ match parse_update message with
           | inl err => LogError err
           | inr (author, _, x) => LogInfo (Processed author x)
           end :: tr.
Proof.
  unfold exec. rewrite process_message_eq. split; [done|]. cbn [snd].
  destruct (parse_update message) as [err|[[author k] x]]; [by exists []|].
  cbv zeta. destruct (chart_of _) as [e|c]; cbn; rewrite <- app_assoc; eauto.
Qed.

(** An accepted update and the lookups after it: under any key of the
    update's group the stats are found, with one more message and the
    sentiment added (from count 0 and sum 0.0 if the group is new); under a
    key of any other group what is found is what was found before. *)
Theorem update_then_lookup (message : string) (author : pyval) (k : pykey)
    (x : float) (w : world) (g : pykey) :
  parse_update message = inr (author, k, x) →
  lookup_stats (author_stats (exec (process_message message) w)) g
  = if key_match g k
    then Some (bump x (default default_stats (lookup_stats (author_stats w) g)))
    else lookup_stats (author_stats w) g.
Proof.
  intros Hp. by rewrite process_message_stats, Hp, lookup_stats_apply.
Qed.

Lemma update_then_lookup_witness :
  lookup_stats (author_stats (exec (process_message msg_alice_08) initial_world))
    (KStr "alice")
  = if key_match (KStr "alice") (KStr "alice")
    then Some (bump 0.8
                 (default default_stats
                    (lookup_stats (author_stats initial_world) (KStr "alice"))))
    else lookup_stats (author_stats initial_world) (KStr "alice").
Proof.
  pose proof (update_then_lookup msg_alice_08 (PStr "alice") (KStr "alice")
                0.8%float initial_world (KStr "alice")
                ltac:(vm_compute; reflexivity)) as H.
  exact H.
Defined.

(** An author that is a JSON array or object cannot be a dict key: the
    message is rejected with [TypeError] (after its sentiment has been
    accepted by [float]) and changes nothing but the log. *)
Theorem unhashable_author_rejected (message : string)
    (pairs : list (string * pyval)) (x : float) (w : world) :
  json_loads message = inr (PDict pairs) →
  py_float (dict_get pairs "sentiment" (PFloat 0.5)) = inr x →
  (∃ items, dict_getitem pairs "author" = Some (PList items))
  ∨ (∃ members, dict_getitem pairs "author" = Some (PDict members)) →
  exec (process_message message) w = emit (LogError (ErrorProcessing TypeError)) w.
Proof.
  intros Hj Hx Ha. unfold exec. rewrite process_message_eq. cbn [snd].
  unfold parse_update. rewrite Hj, Hx. unfold dict_get.
  by destruct Ha as [[items ->]|[members ->]].
Qed.

Lemma unhashable_author_rejected_witness :
  exec (process_message (dq "{'author': ['a', 'b']}")) initial_world
  = emit (LogError (ErrorProcessing TypeError)) initial_world.
Proof.
  pose proof (unhashable_author_rejected (dq "{'author': ['a', 'b']}")
                [("author", PList [PStr "a"; PStr "b"])] 0.5%float initial_world
                ltac:(vm_compute; reflexivity) ltac:(vm_compute; reflexivity)) as H.
  apply H. left. eexists. vm_compute. reflexivity.
Defined.

(** A sentiment that is a JSON number with a fraction or an exponent is
    taken as it is: no range is checked and nothing is clamped, whatever the
    float (also below 0, above 1, infinite or [nan]). *)
Theorem sentiment_not_clamped (message : string) (pairs : list (string * pyval))
    (x : float) (k : pykey) (w : world) :
  json_loads message = inr (PDict pairs) →
  dict_getitem pairs "sentiment" = Some (PFloat x) →
  as_key (dict_get pairs "author" (PStr "unknown")) = inr k →
  parse_update message = inr (dict_get pairs "author" (PStr "unknown"), k, x)
  ∧ author_stats (exec (process_message message) w)
    = apply_update (author_stats w) (k, x).
Proof.
  intros Hj Hs Hk.
  assert (parse_update message
          = inr (dict_get pairs "author" (PStr "unknown"), k, x)) as Hp.
  { unfold parse_update. rewrite Hj. unfold dict_get at 1. rewrite Hs. cbn.
    by rewrite Hk. }
  split; [done|]. by rewrite process_message_stats, Hp.
Qed.

Lemma sentiment_not_clamped_witness :
  parse_update (dq "{'author':'a','sentiment':-7.5}")
  = inr (dict_get [("author", PStr "a"); ("sentiment", PFloat (-7.5))]
           "author" (PStr "unknown"), KStr "a", (-7.5)%float).
Proof.
  pose proof (sentiment_not_clamped (dq "{'author':'a','sentiment':-7.5}")
                [("author", PStr "a"); ("sentiment", PFloat (-7.5))]
                (-7.5)%float (KStr "a") initial_world
                ltac:(vm_compute; reflexivity) ltac:(vm_compute; reflexivity)
                ltac:(vm_compute; reflexivity)) as H.
  destruct H as [H _]. exact H.
Defined.

Lemma processed_log_app tr1 tr2 :
  processed_log (tr1 ++ tr2) = processed_log tr1 ++ processed_log tr2.
Proof. unfold processed_log. apply omap_app. Qed.

Lemma process_message_log message w :
  processed_log (trace (exec (process_message message) w))
  = processed_log (trace w)
    ++ match parse_update message with
       | inr (a, _, x) => [(a, x)]
       | inl _ => []
       end.
Proof.
  unfold exec. rewrite process_message_eq. cbn [snd].
  destruct (parse_update message) as [err|[[author k] x]].
  - cbn. by rewrite processed_log_app.
  - cbv zeta. destruct (chart_of _); cbn; rewrite !processed_log_app;
      cbn; by rewrite <- app_assoc.
Qed.

(** The log tells what was counted: after any sequence of messages, the
    "Processed" lines of the trace are the accepted messages, each with its
    author and sentiment, in order. *)
Theorem processed_lines_are_accepted (messages : list string) (w : world) :
  processed_log (trace (process_all messages w))
  = processed_log (trace w) ++ accepted_log messages.
Proof.
  revert w. induction messages as [|m ms IH]; intros w.
  { cbn. by rewrite app_nil_r. }
  change (process_all (m :: ms) w) with (process_all ms (exec (process_message m) w)).
  rewrite IH, process_message_log, <- app_assoc. f_equal.
  unfold accepted_log. cbn [omap list_omap].
  by destruct (parse_update m) as [err|[[author k] x]].
Qed.

(** The axes follow the dict: after any sequence of messages since the
    start, what the axes show is the chart of the current [author_stats],
    whenever that chart can be drawn; a rejected message does not redraw. *)
Theorem axes_show_current_stats (messages : list string) (c : chart) :
  chart_of (author_stats (process_all messages initial_world)) = inr c →
  ax (process_all messages initial_world) = c.
Proof.
  assert (∀ w, (∀ c, chart_of (author_stats w) = inr c → ax w = c) →
            ∀ c, chart_of (author_stats (process_all messages w)) = inr c →
                 ax (process_all messages w) = c) as H.
  { induction messages as [|m ms IH]; intros w Hw; [done|].
    change (process_all (m :: ms) w)
      with (process_all ms (exec (process_message m) w)).
    apply IH. intros c'. unfold exec. rewrite process_message_eq. cbn [snd].
    destruct (parse_update m) as [err|[[author k] x]]; [apply Hw|].
    cbv zeta. set (w1 := emit _ _).
    destruct (chart_of (author_stats w1)) as [e|c0] eqn:Hc.
    - change (chart_of (author_stats w1) = inr c' → empty_chart = c').
      by rewrite Hc.
    - change (chart_of (author_stats w1) = inr c' → c0 = c').
      rewrite Hc. by intros [= <-]. }
  apply H. intros c'. by intros [= <-].
Qed.

Lemma axes_show_current_stats_witness :
  ax (process_all scenario initial_world)
  = {| bars := [(KStr "alice", 0.7%float); (KStr "bob", 0.2%float)];
       annotations := [2; 1] |}.
Proof.
  pose proof (axes_show_current_stats scenario
                {| bars := [(KStr "alice", 0.7%float); (KStr "bob", 0.2%float)];
                   annotations := [2; 1] |}
                ltac:(vm_compute; reflexivity)) as H.
  exact H.
Defined.

(** ** Further properties of [update_chart] *)

Lemma fmap_inr_Forall2 {A B} (f : A → exn + B) (l : list A) (ys : list B) :
  f <$> l = inr <$> ys → Forall2 (λ a y, f a = inr y) l ys.
Proof.
  revert ys. induction l as [|a l IH]; intros [|y ys]; cbn; try done.
  intros [= Ha Hl]. constructor; [done|]. by apply IH.
Qed.

(** The chart of the dict after any sequence of messages since the start,
    when it is drawn: one bar per author in order of first appearance, each
    of height [sentiment_sum / count] (the 0.5 of the zero-count branch is
    never used), each annotated with its own author's count. *)
Theorem chart_structure (messages : list string) (c : chart) :
  rendered (process_all messages initial_world) = inr c →
  let d := author_stats (process_all messages initial_world) in
  (bars c).*1 = d.*1
  ∧ annotations c = (λ e, count e.2) <$> d
  ∧ Forall2 (λ e h, py_truediv (sentiment_sum e.2) (count e.2) = inr h)
      d (bars c).*2.
Proof.
  intros Hc d. rewrite rendered_eq in Hc. fold d in Hc.
  assert (own_slots d) as Hown.
  { unfold d. rewrite process_all_stats. apply own_slots_foldl, own_slots_nil. }
  assert (Forall (λ e, 1 ≤ count e.2) d) as Hcount.
  { unfold d. rewrite process_all_stats. by apply foldl_apply_update_counts. }
  unfold chart_of in Hc. rewrite !fmap_entry_of in Hc by done.
  destruct (collect _) as [e|avgs] eqn:Havgs; [done|]. injection Hc as <-.
  apply collect_inr in Havgs. cbn [bars annotations].
  assert (length avgs = length d) as Hlen.
  { apply (f_equal length) in Havgs. by rewrite !length_fmap in Havgs. }
  split; [|split].
  - apply fst_zip. rewrite length_fmap. lia.
  - apply snd_zip. rewrite length_zip_with, !length_fmap. lia.
  - rewrite snd_zip by (rewrite length_fmap; lia).
    apply fmap_inr_Forall2 in Havgs. clear -Havgs Hcount.
    induction Havgs as [|e y d' ys Hey _ IH]; [constructor|].
    apply Forall_cons in Hcount as [Hc Hcs]. constructor; [|by apply IH].
    unfold bar_height in Hey.
    destruct (count e.2 =? 0) eqn:Hz; [apply Z.eqb_eq in Hz; lia|done].
Qed.

Lemma chart_structure_witness :
  (bars {| bars := [(KStr "alice", 0.7%float); (KStr "bob", 0.2%float)];
           annotations := [2; 1] |}).*1
  = (author_stats (process_all scenario initial_world)).*1.
Proof.
  pose proof (chart_structure scenario
                {| bars := [(KStr "alice", 0.7%float); (KStr "bob", 0.2%float)];
                   annotations := [2; 1] |}
                ltac:(vm_compute; reflexivity)) as H.
  cbv zeta in H. destruct H as [H _]. exact H.
Defined.

(** ** Further properties of the file and of [main] *)

Lemma append_cons c s t : (String c s ++ t)%string = String c (s ++ t).
Proof. reflexivity. Qed.

Lemma append_empty_r s : (s ++ EmptyString)%string = s.
Proof. induction s as [|c s IH]; [done|]. rewrite append_cons. by f_equal. Qed.

Lemma take_line_split s :
  s = (take_line s ++ drop_chars (String.length (take_line s)) s)%string.
Proof.
  induction s as [|c s IH]; [done|]. simpl.
  destruct (Ascii.eqb c newline); rewrite append_cons; simpl; [done|]. by f_equal.
Qed.

Lemma take_line_shape s :
  ∃ body, occurs newline body = false
    ∧ (take_line s = (body ++ nl)%string
       ∨ (take_line s = body
          ∧ drop_chars (String.length (take_line s)) s = EmptyString)).
Proof.
  induction s as [|c s (body & Hb & IH)].
  { exists EmptyString. split; [done|]. by right. }
  simpl. destruct (Ascii.eqb c newline) eqn:Hc.
  - exists EmptyString. split; [done|]. left.
    apply Ascii.eqb_eq in Hc. by subst.
  - exists (String c body). split; [simpl; by rewrite Hc|].
    destruct IH as [->|[-> Hd]]; [by left|right]. by split.
Qed.

(** [readline] takes the unread text apart without loss: what it returns,
    followed by what stays unread, is what was unread; the file is untouched
    and the cursor does not go back. What it returns is a line ended by its
    newline, and holds no other newline; or, without any newline, all that
    was left in the file. *)
Theorem readline_splits_unread (f : file) :
  unread f = ((readline f).1 ++ unread (readline f).2)%string
  ∧ content (readline f).2 = content f
  ∧ (pos f ≤ pos (readline f).2)%nat
  ∧ ∃ body, occurs newline body = false
      ∧ ((readline f).1 = (body ++ nl)%string
         ∨ ((readline f).1 = body ∧ unread (readline f).2 = EmptyString)).
Proof.
  destruct (readline_unread f) as [H1 H2]. rewrite H1, H2.
  split; [apply take_line_split|]. split; [done|]. split; [cbn; lia|].
  apply take_line_shape.
Qed.

Lemma lstrip_all_space s : all_space s = true → lstrip s = EmptyString.
Proof.
  induction s as [|c s IH]; [done|]. simpl. intros [Hc Hs]%andb_prop.
  rewrite Hc. by apply IH.
Qed.

Lemma rstrip_nonspace c s : py_isspace c = false → rstrip (String c s) ≠ EmptyString.
Proof. intros Hc. simpl. destruct (rstrip s); by rewrite ?Hc. Qed.

(** [line.strip()] is empty exactly for a text of white space only. *)
Lemma strip_blank s : str_bool (py_strip s) = negb (all_space s).
Proof.
  unfold py_strip. induction s as [|c s IH]; [done|]. simpl.
  destruct (py_isspace c) eqn:Hc; [done|]. simpl.
  pose proof (rstrip_nonspace c s Hc) as H. simpl in H.
  by destruct (match rstrip s with EmptyString => _ | String _ _ => _ end).
Qed.

(** A turn of the loop, by the text it reads: a text that is empty or of
    white space only (a blank line, or nothing new) is passed over with a
    sleep of 0.5 seconds, nothing logged and [author_stats] untouched; any
    other text goes to [process_message] as it is, newline included. *)
Theorem turn_by_text_read (chunk : string) (f : file) (w : world) :
  tail_loop [Appended chunk] f [] w
  = (StillTailing, (readline (append chunk f)).2,
     [event_of (readline (append chunk f)).1],
     if all_space (readline (append chunk f)).1
     then emit (Sleep 0.5) w
     else exec (process_message (readline (append chunk f)).1) w).
Proof.
  rewrite tail_loop_step, next_line_eq. cbn [fst snd tail_loop app].
  rewrite strip_blank. unfold event_of.
  by destruct (all_space (readline (append chunk f)).1).
Qed.



Lemma tail_loop_cut script rest f evs w :
  tail_loop (script ++ CtrlC :: rest) f evs w = tail_loop (script ++ [CtrlC]) f evs w.
Proof.
  revert f evs w. induction script as [|[chunk|] script IH]; intros f evs w; [done| |done].
  rewrite <- !app_comm_cons, !tail_loop_step. apply IH.
Qed.

(** Nothing that comes after the interrupt matters: the run is that of the
    script cut after its first interrupt. *)
Theorem nothing_after_interrupt (data_file : option string)
    (script rest : list tick) :
  main data_file (script ++ CtrlC :: rest) = main data_file (script ++ [CtrlC]).
Proof.
  destruct data_file as [text|]; [|done]. unfold main. cbv zeta.
  by rewrite tail_loop_cut.
Qed.

Lemma unread_next_line f : unread (next_line f).2
  = drop_chars (String.length (take_line (unread f))) (unread f).
Proof. rewrite next_line_eq. apply readline_unread. Qed.

Lemma take_line_app_nl l s :
  occurs newline l = false →
  take_line (l ++ nl ++ s) = (l ++ nl)%string
  ∧ drop_chars (String.length (l ++ nl)) (l ++ nl ++ s) = s.
Proof.
  induction l as [|c l IH]; [done|]. intros [Hc Hl]%orb_false_elim.
  destruct (IH Hl) as [IH1 IH2].
  change (take_line (String c (l ++ nl ++ s)) = String c (l ++ nl)
          ∧ drop_chars (S (String.length (l ++ nl))) (String c (l ++ nl ++ s)) = s).
  simpl. rewrite Hc, IH1. split; [done|]. exact IH2.
Qed.

Lemma strip_event line :
  (if str_bool (py_strip line) then Line line else NoDataYet) = event_of line.
Proof. rewrite strip_blank. unfold event_of. by destruct (all_space line). Qed.

(** A backlog of whole lines is read a line per turn, in order. *)
Lemma tail_loop_backlog ls f evs w :
  valid f → unread f = concat_lines ls →
  Forall (λ l, occurs newline l = false) ls →
  (tail_loop (appends (replicate (length ls) EmptyString)) f evs w).1.2
  = evs ++ ((λ l, event_of (l ++ nl)) <$> ls).
Proof.
  revert f evs w. induction ls as [|l ls IH]; intros f evs w V Hu Hls.
  { cbn. by rewrite app_nil_r. }
  apply Forall_cons in Hls as [Hl Hls]. cbn [length replicate].
  rewrite appends_cons, tail_loop_step.
  assert (unread (append EmptyString f) = (l ++ nl ++ concat_lines ls)%string) as Hu'.
  { by rewrite unread_append, Hu, append_empty_r by done. }
  destruct (take_line_app_nl l (concat_lines ls) Hl) as [Ht Hd].
  rewrite IH; [| |by rewrite unread_next_line, Hu', Ht|done].
  - rewrite next_line_eq. cbn [fst]. rewrite (proj1 (readline_unread _)), Hu', Ht.
    rewrite strip_event, <- app_assoc. done.
  - rewrite next_line_eq. by apply valid_readline, valid_append.
Qed.

(** A burst of lines written at once is not read at once: the turn that
    finds it reads its first line, and each later turn the next one, in the
    order written; a blank line among them takes its turn too (as
    [NoDataYet]). *)
Theorem burst_is_read_line_by_line (l : string) (ls : list string) (f : file)
    (evs : list TailEvent) (w : world) :
  valid f → unread f = EmptyString →
  Forall (λ l, occurs newline l = false) (l :: ls) →
  (tail_loop (Appended (concat_lines (l :: ls))
                :: appends (replicate (length ls) EmptyString)) f evs w).1.2
  = evs ++ ((λ l, event_of (l ++ nl)) <$> (l :: ls)).
Proof.
  intros V Hu [Hl Hls]%Forall_cons. rewrite tail_loop_step.
  assert (unread (append (concat_lines (l :: ls)) f)
          = (l ++ nl ++ concat_lines ls)%string) as Hu'.
  { by rewrite unread_append, Hu by done. }
  destruct (take_line_app_nl l (concat_lines ls) Hl) as [Ht Hd].
  rewrite tail_loop_backlog; [| |by rewrite unread_next_line, Hu', Ht|done].
  - rewrite next_line_eq. cbn [fst]. rewrite (proj1 (readline_unread _)), Hu', Ht.
    rewrite strip_event, <- app_assoc. done.
  - rewrite next_line_eq. by apply valid_readline, valid_append.
Qed.

Lemma burst_is_read_line_by_line_witness :
  (tail_loop (Appended (concat_lines [msg_alice_08; EmptyString; msg_bob_02])
                :: appends (replicate (length [EmptyString; msg_bob_02]) EmptyString))
     (seek_end (open_file "old")) [] initial_world).1.2
  = [] ++ ((λ l, event_of (l ++ nl)) <$> [msg_alice_08; EmptyString; msg_bob_02]).
Proof.
  pose proof (burst_is_read_line_by_line msg_alice_08 [EmptyString; msg_bob_02]
                (seek_end (open_file "old")) [] initial_world
                (valid_seek_end _) (unread_seek_end _)) as H.
  apply H. repeat constructor.
Defined.

(** ** The division of [update_chart] below 2^53 messages *)













(** ** Sleeping *)

Lemma count_sleeps_app tr1 tr2 :
  count_sleeps (tr1 ++ tr2) = (count_sleeps tr1 + count_sleeps tr2)%nat.
Proof. unfold count_sleeps. by rewrite omap_app, length_app. Qed.

Lemma count_idle_app evs1 evs2 :
  count_idle (evs1 ++ evs2) = (count_idle evs1 + count_idle evs2)%nat.
Proof. unfold count_idle. by rewrite omap_app, length_app. Qed.

Lemma process_message_sleeps message w :
  count_sleeps (trace (exec (process_message message) w)) = count_sleeps (trace w).
Proof.
  unfold exec. rewrite process_message_eq. cbn [snd].
  destruct (parse_update message) as [err|[[author k] x]].
  - cbn [emit trace]. rewrite count_sleeps_app. cbn. lia.
  - cbv zeta. destruct (chart_of _); cbn [emit trace set_ax set_author_stats];
      rewrite !count_sleeps_app; cbn; lia.
Qed.

Lemma tail_loop_sleeps script f evs w :
  (count_sleeps (trace (tail_loop script f evs w).2) + count_idle evs
   = count_sleeps (trace w) + count_idle (tail_loop script f evs w).1.2)%nat.
Proof.
  revert f evs w. induction script as [|[chunk|] script IH]; intros f evs w;
    [done| |done].
  rewrite tail_loop_step.
  specialize (IH (next_line (append chunk f)).2
                (evs ++ [(next_line (append chunk f)).1])
                match (next_line (append chunk f)).1 with
                | Line line => exec (process_message line) w
                | NoDataYet => emit (Sleep 0.5) w
                end).
  rewrite count_idle_app in IH.
  destruct (next_line (append chunk f)).1 as [line|].
  - rewrite process_message_sleeps in IH.
    change (count_idle [Line line]) with 0%nat in IH. lia.
  - cbn [emit trace] in IH. rewrite count_sleeps_app in IH.
    change (count_idle [NoDataYet]) with 1%nat in IH.
    change (count_sleeps [Sleep 0.5]) with 1%nat in IH. lia.
Qed.

(** The program sleeps on the turns that get no line and on no other: in
    any run, the sleeps in the trace are as many as the [NoDataYet] events.
    A line that is there is processed without waiting. *)
Theorem sleeps_once_per_idle_turn (text : string) (script : list tick) :
  count_sleeps (trace (final (main (Some text) script)))
  = count_idle (events (main (Some text) script)).
Proof.
  pose proof (tail_loop_sleeps script (seek_end (open_file text)) []
                (emit (Print "Consumer ready. Waiting for new messages...")
                   (emit (LogInfo StartConsumer) initial_world))) as H.
  unfold main. cbv zeta.
  destruct (tail_loop _ _ _ _) as [[[e f'] evs] w']. cbn [fst snd] in H.
  change (count_idle []) with 0%nat in H.
  cbn [emit trace initial_world app] in H.
  change (count_sleeps [LogInfo StartConsumer; Print _]) with 0%nat in H.
  destruct e; cbn [final events finally emit trace];
    rewrite ?count_sleeps_app;
    repeat match goal with
           | |- context [count_sleeps [?e]] =>
               change (count_sleeps [e]) with 0%nat
           end; lia.
Qed.
